(** * cli-todolist: the task store of [main.py], embedded and verified

    The Python class [TodoList] keeps a list of task dictionaries, prints
    its reports on standard output and reads and writes files.  The
    embedding keeps these three things in one record, [world], and every
    method is a function on worlds; [export_to_markdown] also gives the
    value it returns, and [load_tasks] gives no world when [json.load]
    raises an exception the method does not catch or the file holds
    what the embedding has no form for.

    - a task dictionary with the five keys the program uses is the record
      [task]; integers are [Z]; a [str] is a [string], each character
      being one code point below 256;
    - [print] appends one line to [stdout];
    - the file system is a finite map from paths to contents;
    - [datetime.datetime.now().strftime(...)] is an input of the methods
      that read the clock.

    [list_tasks], [display_menu] and [main] are embedded over a session:
    the store, the lines typed and the readings of the clock. *)

From Stdlib Require Import ZArith String Ascii List Bool Lia Permutation Sorted.
From Stdlib Require Import DecimalString DecimalZ DecimalPos DecimalFacts.
From stdpp Require Import gmap strings list fin_maps.

Local Open Scope Z_scope.

(** ** Python values used by the program *)

Definition chr (n : nat) : string := String (ascii_of_nat n) EmptyString.

(** The newline of ["\n"]. *)
Definition nl : string := chr 10.

(** [str(n)] for an [int]. *)
Definition str_of_int (z : Z) : string := NilZero.string_of_int (Z.to_int z).

(** [sep.join(l)]. *)
Fixpoint join (sep : string) (l : list string) : string :=
  match l with
  | [] => ""
  | [x] => x
  | x :: r => x +:+ sep +:+ join sep r
  end.

(** [repr(s)] for a [str] without quote, backslash or control
    character, the only kind the program takes the [repr] of. *)
Definition repr_str (s : string) : string := "'" +:+ s +:+ "'".

(** [str(l)] for a list of such strings. *)
Definition str_of_list (l : list string) : string :=
  "[" +:+ join ", " (map repr_str l) +:+ "]".

(** A [dict] literal with [str] keys, in insertion order. *)
Definition dict (V : Type) : Type := list (string * V).

(** [k in d] *)
Definition dict_mem {V} (k : string) (d : dict V) : bool :=
  existsb (fun kv => String.eqb (fst kv) k) d.

(** [d.get(k, default)] *)
Fixpoint dict_get {V} (d : dict V) (k : string) (default : V) : V :=
  match d with
  | [] => default
  | (k', v) :: r => if String.eqb k' k then v else dict_get r k default
  end.

(** [d.keys()] *)
Definition dict_keys {V} (d : dict V) : list string := map fst d.

(** Truth value of an argument that is [None] or a [str]. *)
Definition truthy (o : option string) : bool :=
  match o with
  | None => false
  | Some s => negb (String.eqb s "")
  end.

(** The [str] an argument holds, read only where it is not [None]. *)
Definition the_str (o : option string) : string :=
  match o with
  | None => ""
  | Some s => s
  end.

(** ** Module constants *)

Definition Fore_RED : string := chr 27 +:+ "[31m".
Definition Fore_YELLOW : string := chr 27 +:+ "[33m".
Definition Fore_GREEN : string := chr 27 +:+ "[32m".

Definition PRIORITY_COLORS : dict string :=
  [("high", Fore_RED); ("medium", Fore_YELLOW); ("low", Fore_GREEN)].

(** ** Tasks and the world *)

Record task : Type := mkTask {
  id : Z;
  name : string;
  priority : string;
  done : bool;
  created_at : string
}.

Definition set_name (n : string) (t : task) : task :=
  mkTask (id t) n (priority t) (done t) (created_at t).

Definition set_priority (p : string) (t : task) : task :=
  mkTask (id t) (name t) p (done t) (created_at t).

Definition set_done (b : bool) (t : task) : task :=
  mkTask (id t) (name t) (priority t) b (created_at t).

Record world : Type := mkWorld {
  tasks : list task;
  filename : string;
  stdout : list string;
  files : gmap string string
}.

Definition set_tasks (l : list task) (w : world) : world :=
  mkWorld l (filename w) (stdout w) (files w).

Definition print (line : string) (w : world) : world :=
  mkWorld (tasks w) (filename w) (stdout w ++ [line]) (files w).

Definition write_file (path content : string) (w : world) : world :=
  mkWorld (tasks w) (filename w) (stdout w) (<[path := content]> (files w)).

(** ** The [json] module, as far as [json.dump] and [json.load] use it

    The encoder is the one [json.dump(obj, f, indent=2)] runs, with
    [ensure_ascii] on; the decoder is [json.load], strict.  Both stop
    with ValueError at an integer of more than 4300 digits, the limit
    the interpreter starts with.  Floats, code points of 256 and more
    and nesting deeper than [max_depth] have no form in the embedding:
    the decoder answers [Unmodelled] for them. *)

Module json.

(** The values [json.load] builds, floats left out. *)
Local Unset Elimination Schemes.
Inductive value : Type :=
  | JNull
  | JBool (b : bool)
  | JInt (z : Z)
  | JStr (s : string)
  | JArr (l : list value)
  | JObj (m : list (string * value)).
Local Set Elimination Schemes.

Definition dquote : ascii := "034"%char.
Definition backslash : ascii := "092"%char.

(** *** Encoding, as [json.dump(obj, f, indent=2)] does it *)

Definition hex_digit (n : N) : ascii :=
  match n with
  | 0 => "0" | 1 => "1" | 2 => "2" | 3 => "3" | 4 => "4" | 5 => "5"
  | 6 => "6" | 7 => "7" | 8 => "8" | 9 => "9" | 10 => "a" | 11 => "b"
  | 12 => "c" | 13 => "d" | 14 => "e" | _ => "f"
  end%N%char.

(** One character of a string, with [ensure_ascii] on. *)
Definition escape_char (c : ascii) : string :=
  let n := N_of_ascii c in
  if Ascii.eqb c dquote then String backslash (String dquote "")
  else if Ascii.eqb c backslash then String backslash (String backslash "")
  else if (n =? 10)%N then String backslash "n"
  else if (n =? 13)%N then String backslash "r"
  else if (n =? 9)%N then String backslash "t"
  else if (n =? 12)%N then String backslash "f"
  else if (n =? 8)%N then String backslash "b"
  else if (n <? 32)%N || (126 <? n)%N then
    String backslash
      (String "u" (String "0" (String "0"
        (String (hex_digit (n / 16)) (String (hex_digit (n mod 16)) "")))))
  else String c "".

Fixpoint escape_chars (s : string) : string :=
  match s with
  | EmptyString => ""
  | String c r => escape_char c +:+ escape_chars r
  end.

Definition encode_basestring_ascii (s : string) : string :=
  String dquote (escape_chars s +:+ String dquote "").

Fixpoint spaces (n : nat) : string :=
  match n with
  | O => ""
  | S n => String " " (spaces n)
  end.

(** The newline and the indentation of nesting level [lvl]. *)
Definition newline_indent (indent lvl : nat) : string :=
  nl +:+ spaces (indent * lvl).

Fixpoint encode (indent lvl : nat) (v : value) : string :=
  match v with
  | JNull => "null"
  | JBool true => "true"
  | JBool false => "false"
  | JInt z => str_of_int z
  | JStr s => encode_basestring_ascii s
  | JArr [] => "[]"
  | JArr l =>
      "[" +:+ newline_indent indent (S lvl)
      +:+ join ("," +:+ newline_indent indent (S lvl))
            (map (encode indent (S lvl)) l)
      +:+ newline_indent indent lvl +:+ "]"
  | JObj [] => "{}"
  | JObj m =>
      "{" +:+ newline_indent indent (S lvl)
      +:+ join ("," +:+ newline_indent indent (S lvl))
            (map (fun kv =>
                    match kv with
                    | (k, x) =>
                        encode_basestring_ascii k +:+ ": "
                        +:+ encode indent (S lvl) x
                    end) m)
      +:+ newline_indent indent lvl +:+ "}"
  end.

Definition dumps (indent : nat) (v : value) : string := encode indent 0 v.

(** [sys.int_max_str_digits], as the interpreter starts with it. *)
Definition int_max_str_digits : nat := 4300.

(** Whether [z] has no more digits than a conversion between [int] and
    [str] takes; with more, [str(z)] and [int(text)] raise ValueError. *)
Definition int_ok (z : Z) : bool :=
  (String.length (str_of_int (Z.abs z)) <=? int_max_str_digits)%nat.

(** What [json.dump] has written when it stops: the chunks of
    [iterencode] in their order, all of them or those before the first
    integer that is not [int_ok], where the conversion raises.  The
    flag tells whether the encoding came to its end.

    In a list the bracket or separator before a number, string or
    constant is one chunk with it, and is lost with a number that
    raises; before a list or dictionary it is a chunk of its own. *)
Definition emit_items (emit1 : value -> string * bool) (sep close : string)
    : string -> list value -> string * bool :=
  fix items (buf : string) (l : list value) : string * bool :=
    match l with
    | [] => (close, true)
    | x :: r =>
        let (t, ok) := emit1 x in
        if ok : bool then
          let (t', ok') := items sep r in (buf +:+ t +:+ t', ok')
        else
          (match x with
           | JInt _ => ""
           | _ => buf +:+ t
           end, false)
    end.

(** In a dictionary the key and the colon are chunks of their own,
    written before the value is converted. *)
Definition emit_members (emit1 : value -> string * bool) (sep close : string)
    : string -> list (string * value) -> string * bool :=
  fix members (buf : string) (m : list (string * value)) : string * bool :=
    match m with
    | [] => (close, true)
    | (k, x) :: r =>
        let (t, ok) := emit1 x in
        let head := buf +:+ encode_basestring_ascii k +:+ ": " +:+ t in
        if ok : bool then
          let (t', ok') := members sep r in (head +:+ t', ok')
        else (head, false)
    end.

Fixpoint emit (indent lvl : nat) (v : value) : string * bool :=
  match v with
  | JInt z => if int_ok z then (str_of_int z, true) else ("", false)
  | JArr [] => ("[]", true)
  | JArr l =>
      emit_items (emit indent (S lvl))
        ("," +:+ newline_indent indent (S lvl))
        (newline_indent indent lvl +:+ "]")
        ("[" +:+ newline_indent indent (S lvl)) l
  | JObj [] => ("{}", true)
  | JObj m =>
      emit_members (emit indent (S lvl))
        ("," +:+ newline_indent indent (S lvl))
        (newline_indent indent lvl +:+ "}")
        ("{" +:+ newline_indent indent (S lvl)) m
  | _ => (encode indent lvl v, true)
  end.

(** [json.dump(obj, f, indent=indent)]: the text written to [f], and
    whether the call returned. *)
Definition dump (indent : nat) (v : value) : string * bool := emit indent 0 v.

(** *** Decoding, as [json.load] does it *)

(** What a scan answers: a value and the text after it;
    [JSONDecodeError]; another exception, the ValueError of an integer
    beyond the digit limit; a text the embedding has no form for; or
    that the bound on the calls was reached, which [loads] excludes
    (lemma [loads_fuel]). *)
Inductive result (A : Type) : Type :=
  | Ok (a : A) (rest : string)
  | DecodeError
  | Raised
  | Unmodelled
  | NoFuel.
Arguments Ok {A} a rest.
Arguments DecodeError {A}.
Arguments Raised {A}.
Arguments Unmodelled {A}.
Arguments NoFuel {A}.

Definition bind {A B} (e : result A) (k : A -> string -> result B) : result B :=
  match e with
  | Ok a rest => k a rest
  | DecodeError => DecodeError
  | Raised => Raised
  | Unmodelled => Unmodelled
  | NoFuel => NoFuel
  end.

Definition is_ws (c : ascii) : bool :=
  let n := N_of_ascii c in
  (n =? 32)%N || (n =? 9)%N || (n =? 10)%N || (n =? 13)%N.

Fixpoint skip_ws (s : string) : string :=
  match s with
  | EmptyString => ""
  | String c r => if is_ws c then skip_ws r else s
  end.

Definition is_digit (c : ascii) : bool :=
  let n := N_of_ascii c in (48 <=? n)%N && (n <=? 57)%N.

Definition hex_value (c : ascii) : option N :=
  let n := N_of_ascii c in
  if (48 <=? n)%N && (n <=? 57)%N then Some (n - 48)%N
  else if (97 <=? n)%N && (n <=? 102)%N then Some (n - 87)%N
  else if (65 <=? n)%N && (n <=? 70)%N then Some (n - 55)%N
  else None.

Definition hex4 (h1 h2 h3 h4 : ascii) : option N :=
  match hex_value h1, hex_value h2, hex_value h3, hex_value h4 with
  | Some a, Some b, Some c, Some d => Some (((a * 16 + b) * 16 + c) * 16 + d)%N
  | _, _, _, _ => None
  end.

(** The table [BACKSLASH]. *)
Definition unescape (e : ascii) : option ascii :=
  if Ascii.eqb e dquote then Some dquote
  else if Ascii.eqb e backslash then Some backslash
  else if Ascii.eqb e "/" then Some "/"%char
  else if Ascii.eqb e "b" then Some "008"%char
  else if Ascii.eqb e "f" then Some "012"%char
  else if Ascii.eqb e "n" then Some "010"%char
  else if Ascii.eqb e "r" then Some "013"%char
  else if Ascii.eqb e "t" then Some "009"%char
  else None.

Definition cons_char (c : ascii) (e : result string) : result string :=
  bind e (fun x rest => Ok (String c x) rest).

(** [scanstring], strict, from the character after the opening quote.
    An escape that names a code point of 256 or more has no form here. *)
Fixpoint scanstring (s : string) : result string :=
  match s with
  | EmptyString => DecodeError
  | String c r =>
      if Ascii.eqb c dquote then Ok "" r
      else if Ascii.eqb c backslash then
        match r with
        | EmptyString => DecodeError
        | String e r1 =>
            if Ascii.eqb e "u" then
              match r1 with
              | String h1 (String h2 (String h3 (String h4 r2))) =>
                  match hex4 h1 h2 h3 h4 with
                  | Some n =>
                      if (n <? 256)%N then cons_char (ascii_of_N n) (scanstring r2)
                      else Unmodelled
                  | None => DecodeError
                  end
              | _ => DecodeError
              end
            else
              match unescape e with
              | Some c' => cons_char c' (scanstring r1)
              | None => DecodeError
              end
        end
      else if (N_of_ascii c <? 32)%N then DecodeError
      else cons_char c (scanstring r)
  end.

Fixpoint scan_digits (s : string) : string * string :=
  match s with
  | EmptyString => ("", "")
  | String c r =>
      if is_digit c then
        let (ds, rest) := scan_digits r in (String c ds, rest)
      else ("", s)
  end.

Definition starts_with_digit (s : string) : bool :=
  match s with
  | EmptyString => false
  | String c _ => is_digit c
  end.

(** Whether a fraction or an exponent follows the integer part. *)
Definition float_follows (s : string) : bool :=
  match s with
  | EmptyString => false
  | String c r =>
      if Ascii.eqb c "." then starts_with_digit r
      else if Ascii.eqb c "e" || Ascii.eqb c "E" then
        match r with
        | EmptyString => false
        | String d r' =>
            if Ascii.eqb d "+" || Ascii.eqb d "-" then starts_with_digit r'
            else is_digit d
        end
      else false
  end.

(** The number at the head of [s], by [NUMBER_RE]; the constants
    [NaN], [Infinity] and [-Infinity] and every float are left out.
    An integer of more digits than [int_max_str_digits] makes [int]
    raise ValueError. *)
Definition scan_number (s : string) : result value :=
  let (neg, s1) :=
    match s with
    | String c r => if Ascii.eqb c "-" then (true, r) else (false, s)
    | EmptyString => (false, s)
    end in
  let (ds, rest) := scan_digits s1 in
  match ds with
  | EmptyString =>
      if String.prefix "NaN" s || String.prefix "Infinity" s
         || String.prefix "-Infinity" s
      then Unmodelled else DecodeError
  | String d ds' =>
      let (int_part, rest) :=
        if Ascii.eqb d "0" then (String d "", ds' +:+ rest) else (ds, rest) in
      if float_follows rest then Unmodelled
      else if (int_max_str_digits <? String.length int_part)%nat then Raised
      else
        match NilEmpty.uint_of_string int_part with
        | Some u => Ok (JInt (if neg : bool then - Z.of_uint u else Z.of_uint u)) rest
        | None => DecodeError
        end
  end.

Fixpoint strip_prefix (p s : string) : option string :=
  match p, s with
  | EmptyString, _ => Some s
  | String a p', String b s' => if Ascii.eqb a b then strip_prefix p' s' else None
  | String _ _, EmptyString => None
  end.

(** [scan_once], [JSONObject] and [JSONArray].  [fuel] bounds the calls
    that are still allowed.  [depth] is the number of lists and
    dictionaries that may still be opened inside one another: the
    scanner raises RecursionError at a depth that depends on the
    interpreter, and a text nested deeper than [max_depth] has no form
    here. *)
Fixpoint scan_once (fuel depth : nat) (s : string) : result value :=
  match fuel with
  | O => NoFuel
  | S fuel =>
      match s with
      | EmptyString => DecodeError
      | String c r =>
          if Ascii.eqb c dquote then
            bind (scanstring r) (fun x rest => Ok (JStr x) rest)
          else if Ascii.eqb c "{" then
            match depth with
            | O => Unmodelled
            | S depth =>
                match skip_ws r with
                | EmptyString => DecodeError
                | String c' r' =>
                    if Ascii.eqb c' dquote then object_members fuel depth r' []
                    else if Ascii.eqb c' "}" then Ok (JObj []) r'
                    else DecodeError
                end
            end
          else if Ascii.eqb c "[" then
            match depth with
            | O => Unmodelled
            | S depth =>
                match skip_ws r with
                | EmptyString => array_items fuel depth "" []
                | String c' r' =>
                    if Ascii.eqb c' "]" then Ok (JArr []) r'
                    else array_items fuel depth (String c' r') []
                end
            end
          else
            match strip_prefix "null" s with
            | Some rest => Ok JNull rest
            | None =>
                match strip_prefix "true" s with
                | Some rest => Ok (JBool true) rest
                | None =>
                    match strip_prefix "false" s with
                    | Some rest => Ok (JBool false) rest
                    | None => scan_number s
                    end
                end
            end
      end
  end

(** The pairs of an object, from the character after the opening quote
    of a key. *)
with object_members (fuel depth : nat) (s : string)
    (acc : list (string * value)) : result value :=
  match fuel with
  | O => NoFuel
  | S fuel =>
      bind (scanstring s) (fun key s1 =>
      match skip_ws s1 with
      | EmptyString => DecodeError
      | String c s2 =>
          if Ascii.eqb c ":" then
            bind (scan_once fuel depth (skip_ws s2)) (fun x s3 =>
            match skip_ws s3 with
            | EmptyString => DecodeError
            | String c' s4 =>
                if Ascii.eqb c' "}" then Ok (JObj (acc ++ [(key, x)])) s4
                else if Ascii.eqb c' "," then
                  match skip_ws s4 with
                  | EmptyString => DecodeError
                  | String c'' s5 =>
                      if Ascii.eqb c'' dquote
                      then object_members fuel depth s5 (acc ++ [(key, x)])
                      else DecodeError
                  end
                else DecodeError
            end)
          else DecodeError
      end)
  end

(** The items of an array, from the first character of an item. *)
with array_items (fuel depth : nat) (s : string) (acc : list value)
    : result value :=
  match fuel with
  | O => NoFuel
  | S fuel =>
      bind (scan_once fuel depth s) (fun x s1 =>
      match skip_ws s1 with
      | EmptyString => DecodeError
      | String c s2 =>
          if Ascii.eqb c "]" then Ok (JArr (acc ++ [x])) s2
          else if Ascii.eqb c "," then
            array_items fuel depth (skip_ws s2) (acc ++ [x])
          else DecodeError
      end)
  end.

(** The nesting up to which the scan is given a form. *)
Definition max_depth : nat := 100.

(** [json.loads]: one value, with white space around it and nothing
    else.  A scan takes at most two calls for a character. *)
Definition loads (s : string) : result value :=
  bind (scan_once (2 * String.length s + 1) max_depth (skip_ws s))
    (fun x rest =>
       match skip_ws rest with
       | EmptyString => Ok x ""
       | String _ _ => DecodeError
       end).

End json.

Import json.

(** ** [save_tasks] and [load_tasks] *)

(** The dictionary of a task, keys in the order [add_task] writes them. *)
Definition task_to_value (t : task) : value :=
  JObj [("id", JInt (id t)); ("name", JStr (name t));
        ("priority", JStr (priority t)); ("done", JBool (done t));
        ("created_at", JStr (created_at t))].

Definition tasks_to_value (l : list task) : value := JArr (map task_to_value l).

(** [d[k]] for the dictionary made of the pairs [m]: a later pair with
    the same key replaces an earlier one. *)
Fixpoint pairs_get (m : list (string * value)) (k : string) : option value :=
  match m with
  | [] => None
  | (k', x) :: r =>
      match pairs_get r k with
      | Some y => Some y
      | None => if String.eqb k' k then Some x else None
      end
  end.

Definition task_keys : list string :=
  ["id"; "name"; "priority"; "done"; "created_at"].

(** The task a decoded dictionary is.  [None] when it has another key or
    a value of another type under one of the five: such a dictionary has
    no form in the record [task]. *)
Definition task_of_value (v : value) : option task :=
  match v with
  | JObj m =>
      if forallb (fun kv => existsb (String.eqb (fst kv)) task_keys) m then
        match pairs_get m "id", pairs_get m "name", pairs_get m "priority",
              pairs_get m "done", pairs_get m "created_at" with
        | Some (JInt i), Some (JStr n), Some (JStr p), Some (JBool d),
          Some (JStr c) => Some (mkTask i n p d c)
        | _, _, _, _, _ => None
        end
      else None
  | _ => None
  end.

Fixpoint tasks_of_values (l : list value) : option (list task) :=
  match l with
  | [] => Some []
  | v :: r =>
      match task_of_value v, tasks_of_values r with
      | Some t, Some ts => Some (t :: ts)
      | _, _ => None
      end
  end.

Definition tasks_of_value (v : value) : option (list task) :=
  match v with
  | JArr l => tasks_of_values l
  | _ => None
  end.

(** Whether [json.dump] comes to its end on the tasks: it does unless
    an id has more digits than the limit. *)
Definition dump_completes (w : world) : bool :=
  snd (dump 2 (tasks_to_value (tasks w))).

(** [json.dump(self.tasks, f, indent=2)] into the file opened with ['w'].
    Where [json.dump] raises, the file is closed with what was written
    before, nothing is printed, and the exception leaves the method:
    [dump_completes] tells the callers. *)
Definition save_tasks (w : world) : world :=
  let (text, ok) := dump 2 (tasks_to_value (tasks w)) in
  let w := write_file (filename w) text w in
  if ok : bool then print ("Tasks saved to " +:+ filename w) w else w.

(** [os.path.exists] is a lookup in the files.  The result is [None]
    when [json.load] raises an exception the method does not catch, so
    that the call does not return, and when the file holds what the
    embedding has no form for. *)
Definition load_tasks (w : world) : option world :=
  match files w !! filename w with
  | Some text =>
      match loads text with
      | Ok v _ =>
          match tasks_of_value v with
          | Some l => Some (set_tasks l w)
          | None => None
          end
      | DecodeError =>
          let w := print "Error loading tasks file. Starting with empty list" w in
          Some (set_tasks [] w)
      | Raised | Unmodelled | NoFuel => None
      end
  | None => Some (set_tasks [] w)
  end.

(** [TodoList()], with the files as they are found. *)
Definition TodoList (fs : gmap string string) : option world :=
  load_tasks (mkWorld [] "tasks.json" [] fs).

(** ** [sort_tasks] *)

Definition priority_order : dict Z := [("high", 0); ("medium", 1); ("low", 2)].

Definition priority_rank (x : task) : Z :=
  dict_get priority_order (priority x) 999.

(** The key of the [lambda]: the pair [(x["done"], rank)]. *)
Definition sort_key (x : task) : bool * Z := (done x, priority_rank x).

(** [a < b] on such pairs: the first components decide unless they are
    equal, and [False < True]. *)
Definition key_ltb (a b : bool * Z) : bool :=
  if Bool.eqb (fst a) (fst b) then snd a <? snd b
  else negb (fst a) && fst b.

(** [list.sort(key=...)] is a stable sort: the result is ordered by the
    key and elements with equal keys keep their order.  Exactly one list
    has these properties ([stable_sort_unique] below), and it is the one
    insertion from the right computes. *)
Fixpoint insert_sorted (x : task) (l : list task) : list task :=
  match l with
  | [] => [x]
  | y :: r =>
      if key_ltb (sort_key y) (sort_key x) then y :: insert_sorted x r
      else x :: y :: r
  end.

Fixpoint list_sort (l : list task) : list task :=
  match l with
  | [] => []
  | x :: r => insert_sorted x (list_sort r)
  end.

Definition sort_tasks (w : world) : world := set_tasks (list_sort (tasks w)) w.

(** ** [add_task] *)

Definition invalid_priority_msg : string :=
  "Invalid priority. Choose from: " +:+ join "," (dict_keys PRIORITY_COLORS).

(** [now] is [datetime.datetime.now().strftime("%Y-%m-%d %H:%M:%S")]. *)
Definition add_task (now : string) (name : string) (priority : string)
    (w : world) : world :=
  if negb (dict_mem priority PRIORITY_COLORS) then print invalid_priority_msg w
  else
    let task := mkTask (Z.of_nat (length (tasks w)) + 1) name priority false now in
    let w := set_tasks (tasks w ++ [task]) w in
    let w := sort_tasks w in
    print ("Task added: " +:+ name) w.

(** The default of the parameter [priority]. *)
Definition add_task_default_priority : string := "medium".

(** [add_task(name)], the call without a priority. *)
Definition add_task_default (now : string) (name : string) (w : world) : world :=
  add_task now name add_task_default_priority w.

(** ** [delete_task] *)

Definition not_found_msg (task_id : Z) : string :=
  "No task found with ID " +:+ str_of_int task_id.

(** [l.pop(i)]: the element and the list without it; [None] stands for
    [IndexError]. *)
Definition pop (i : nat) (l : list task) : option (task * list task) :=
  match l !! i with
  | Some x => Some (x, delete i l)
  | None => None
  end.

(** The [for i, task in enumerate(self.tasks)] loop, from index [i] on;
    [rest] is what is left to visit.  The [print] of line 61 is inside
    the loop body. *)
Fixpoint delete_loop (task_id : Z) (i : nat) (rest : list task) (w : world)
    : world :=
  match rest with
  | [] => w
  | task :: rest' =>
      if id task =? task_id then
        match pop i (tasks w) with
        | Some (deleted_task, l) =>
            print ("Deleted task: " +:+ name deleted_task) (set_tasks l w)
        | None => w
        end
      else
        delete_loop task_id (S i) rest' (print (not_found_msg task_id) w)
  end.

Definition delete_task (task_id : Z) (w : world) : world :=
  delete_loop task_id 0 (tasks w) w.

(** ** [update_task] *)

Definition invalid_priorty_msg : string :=
  "Invalid priorty. Choose from: " +:+ join "," (dict_keys PRIORITY_COLORS).

(** [task[key] = v] for the dictionary [task] that stands at index [i]
    of [self.tasks]: the dictionary is changed where it is, in the list. *)
Definition assign (i : nat) (f : task -> task) (w : world) : world :=
  set_tasks (alter f i (tasks w)) w.

(** The body of the [if task["id"] == task_id] branch, for the task at
    index [i]. *)
Definition update_found (task_id : Z) (name priority : option string)
    (i : nat) (w : world) : world :=
  let w := if truthy name then assign i (set_name (the_str name)) w else w in
  if truthy priority then
    if dict_mem (the_str priority) PRIORITY_COLORS then
      let w := assign i (set_priority (the_str priority)) w in
      let w := print ("Updated task " +:+ str_of_int task_id) w in
      sort_tasks w
    else print invalid_priorty_msg w
  else
    let w := print ("Updated task " +:+ str_of_int task_id) w in
    sort_tasks w.

Fixpoint update_loop (task_id : Z) (name priority : option string)
    (i : nat) (rest : list task) (w : world) : world :=
  match rest with
  | [] => print (not_found_msg task_id) w
  | task :: rest' =>
      if id task =? task_id then update_found task_id name priority i w
      else update_loop task_id name priority (S i) rest' w
  end.

Definition update_task (task_id : Z) (name priority : option string)
    (w : world) : world :=
  update_loop task_id name priority 0 (tasks w) w.

(** ** [mark_done] *)

Definition mark_found (task_id : Z) (i : nat) (task : task) (w : world) : world :=
  let w := assign i (set_done (negb (done task))) w in
  let status := if negb (done task) then "completed" else "pending" in
  let w := print ("Marked task " +:+ str_of_int task_id +:+ " as " +:+ status) w in
  sort_tasks w.

Fixpoint mark_loop (task_id : Z) (i : nat) (rest : list task) (w : world)
    : world :=
  match rest with
  | [] => print (not_found_msg task_id) w
  | task :: rest' =>
      if id task =? task_id then mark_found task_id i task w
      else mark_loop task_id (S i) rest' w
  end.

Definition mark_done (task_id : Z) (w : world) : world :=
  mark_loop task_id 0 (tasks w) w.

(** ** [export_to_markdown] *)

Definition priority_tag (t : task) : string :=
  if dict_mem (priority t) PRIORITY_COLORS then "[!" +:+ priority t +:+ "] "
  else "".

(** What the first loop writes for one task. *)
Definition pending_line (t : task) : string :=
  if negb (done t) then
    let checkbox := "- [ ] " in
    checkbox +:+ priority_tag t +:+ name t +:+ nl
  else "".

(** What the second loop writes for one task; [checkbox] is a list
    there, and the f-string formats it with [str]. *)
Definition completed_line (t : task) : string :=
  if done t then
    let checkbox := ["- [x] "%string] in
    str_of_list checkbox +:+ priority_tag t +:+ name t +:+ nl
  else "".

Definition concat_str (l : list string) : string :=
  fold_right String.append "" l.

(** Everything written to the file, in order.  [now_line] is the clock
    formatted with ["%Y-%m-%d %H:%M:%S"]. *)
Definition markdown_of (now_line : string) (l : list task) : string :=
  "# Todo List" +:+ nl +:+ nl
  +:+ "Exported on : " +:+ now_line +:+ nl +:+ nl
  +:+ "## Pending Tasks" +:+ nl +:+ nl
  +:+ concat_str (map pending_line l)
  +:+ nl +:+ "## Completed Tasks" +:+ nl +:+ nl
  +:+ concat_str (map completed_line l).

(** [now_file] is the clock formatted with ['%Y%m%d_%H%M%S'].  The result
    is the returned value: [None] for the bare [return]. *)
Definition export_to_markdown (now_file now_line : string) (w : world)
    : option string * world :=
  match tasks w with
  | [] => (None, print "No tasks to export." w)
  | _ :: _ =>
      let filename := "todo_export_" +:+ now_file +:+ ".md" in
      let w := write_file filename (markdown_of now_line (tasks w)) w in
      let w := print ("Tasks exported to " +:+ filename) w in
      (Some filename, w)
  end.

(** ** The console: [list_tasks], [display_menu] and [main]

    What the program hands to [print] and to [input] is kept in [stdout],
    one entry per call; the lines typed are [stdin]; the clock is a
    sequence of readings, one for each call of [datetime.datetime.now]. *)

(** ['c' * n] *)
Fixpoint str_mul (s : string) (n : nat) : string :=
  match n with
  | O => ""
  | S n => s +:+ str_mul s n
  end.

(** The format spec [:<n]: the text, then spaces up to the width [n]. *)
Definition ljust (n : nat) (s : string) : string :=
  s +:+ spaces (n - String.length s).

Definition Style_RESET_ALL : string := chr 27 +:+ "[0m".

(** A reading of the clock, in the two formats the program asks for:
    ["%Y-%m-%d %H:%M:%S"] and ['%Y%m%d_%H%M%S']. *)
Record reading : Type := mkReading {
  stamp : string;
  stamp_file : string
}.

Inductive exn : Type :=
  | ValueError
  | EOFError.

(** The store, the lines not yet read and the number of clock readings
    taken. *)
Record session : Type := mkSession {
  store : world;
  stdin : list string;
  ticks : nat
}.

(** How a computation ends: with a value, with an exception that was
    not caught, on input the embedding has no form for, or with the
    bound on the loop used up. *)
Inductive outcome (A : Type) : Type :=
  | Ret (a : A) (s : session)
  | Raise (e : exn) (s : session)
  | NoModel
  | OutOfFuel.
Arguments Ret {A} a s.
Arguments Raise {A} e s.
Arguments NoModel {A}.
Arguments OutOfFuel {A}.

Definition M (A : Type) : Type := session -> outcome A.

Definition ret {A} (a : A) : M A := fun s => Ret a s.

Definition bindM {A B} (m : M A) (k : A -> M B) : M B :=
  fun s =>
    match m s with
    | Ret a s' => k a s'
    | Raise e s' => Raise e s'
    | NoModel => NoModel
    | OutOfFuel => OutOfFuel
    end.

Notation "x <- m ;; k" := (bindM m (fun x => k))
  (at level 100, m at next level, right associativity).
Notation "m ;;; k" := (bindM m (fun _ => k))
  (at level 100, right associativity).

Definition raise {A} (e : exn) : M A := fun s => Raise e s.

(** A method of the store, run on the session's store. *)
Definition call (f : world -> world) : M unit :=
  fun s => Ret tt (mkSession (f (store s)) (stdin s) (ticks s)).

(** [try: m except ValueError: h] *)
Definition try_except_ValueError (m h : M unit) : M unit :=
  fun s =>
    match m s with
    | Raise ValueError s' => h s'
    | r => r
    end.

(** The prompt of [input], written without a newline. *)
Definition prompt (text : string) (w : world) : world :=
  mkWorld (tasks w) (filename w) (stdout w ++ [text]) (files w).

(** [input(text)]: the next line, [EOFError] when there is none. *)
Definition input (text : string) : M string :=
  fun s =>
    let w := prompt text (store s) in
    match stdin s with
    | [] => Raise EOFError (mkSession w [] (ticks s))
    | line :: rest => Ret line (mkSession w rest (ticks s))
    end.

(** *** [int(s)] for a typed line *)

Inductive int_result : Type :=
  | IntOk (n : Z)
  | IntValueError
  | IntNoModel.

Definition printable (c : ascii) : bool :=
  let n := N_of_ascii c in (32 <=? n)%N && (n <=? 126)%N.

Fixpoint all_chars (p : ascii -> bool) (s : string) : bool :=
  match s with
  | EmptyString => true
  | String c r => p c && all_chars p r
  end.

Fixpoint strip_spaces (s : string) : string :=
  match s with
  | EmptyString => ""
  | String c r => if Ascii.eqb c " " then strip_spaces r else s
  end.

(** The digits at the head of [s], an underscore allowed between two
    digits, and what follows them; [None] for an underscore that no
    digit follows. *)
Fixpoint int_digits (s : string) : option (string * string) :=
  match s with
  | EmptyString => Some ("", "")
  | String c r =>
      if is_digit c then
        match int_digits r with
        | Some (ds, rest) => Some (String c ds, rest)
        | None => None
        end
      else if Ascii.eqb c "_" then
        if starts_with_digit r then int_digits r else None
      else Some ("", s)
  end.

(** [int(s)] in base ten: spaces, a sign, digits, spaces.  Lines with a
    character outside the printable ASCII range, and numbers of more
    than 640 digits, whose conversion depends on the interpreter's
    digit limit, have no form here. *)
Definition py_int (s : string) : int_result :=
  if negb (all_chars printable s) then IntNoModel
  else
    let s1 := strip_spaces s in
    let (neg, s2) :=
      match s1 with
      | String c r =>
          if Ascii.eqb c "-" then (true, r)
          else if Ascii.eqb c "+" then (false, r)
          else (false, s1)
      | EmptyString => (false, s1)
      end in
    if starts_with_digit s2 then
      match int_digits s2 with
      | Some (ds, rest) =>
          match strip_spaces rest, NilEmpty.uint_of_string ds with
          | EmptyString, Some u =>
              if (640 <? String.length ds)%nat then IntNoModel
              else IntOk (if neg : bool then - Z.of_uint u else Z.of_uint u)
          | _, _ => IntValueError
          end
      | None => IntValueError
      end
    else IntValueError.

Definition int_of (s : string) : M Z :=
  match py_int s with
  | IntOk n => ret n
  | IntValueError => raise ValueError
  | IntNoModel => fun _ => NoModel
  end.

(** *** Keys of [priority_map] *)

(** A key is a [str] or an [int]; the two are never equal. *)
Inductive key : Type :=
  | KStr (s : string)
  | KInt (n : Z).

Definition key_eqb (a b : key) : bool :=
  match a, b with
  | KStr s, KStr t => String.eqb s t
  | KInt n, KInt m => Z.eqb n m
  | _, _ => false
  end.

Definition priority_map : list (key * string) :=
  [(KStr "1", "high"); (KStr "2", "medium"); (KStr "3", "low")].

(** [d.get(k)], [None] when the key is missing. *)
Fixpoint map_get (d : list (key * string)) (k : key) : option string :=
  match d with
  | [] => None
  | (k', v) :: r => if key_eqb k' k then Some v else map_get r k
  end.

Section Console.

(** The two status marks of [list_tasks], U+2713 and U+25A1, each one
    code point that a [string] has no character for, and the clock. *)
Variables (check_mark box : string) (clock : nat -> reading).

(** *** [list_tasks] *)

Definition list_row (task : task) : string :=
  let status := if done task then check_mark else box in
  let color := dict_get PRIORITY_COLORS (priority task) "" in
  ljust 5 (str_of_int (id task)) +:+ ljust 10 status +:+ color
  +:+ ljust 10 (name task) +:+ ljust 50 (priority task) +:+ Style_RESET_ALL.

Definition list_heading : string :=
  ljust 5 "ID" +:+ ljust 10 "STATUS" +:+ ljust 10 "NAME" +:+ ljust 50 "PRIORITY".

(** The rule of line 110 is printed in the loop, after every row. *)
Definition list_tasks (w : world) : world :=
  match tasks w with
  | [] => print "No tasks found." w
  | _ :: _ =>
      let w := print (nl +:+ "Your To-Do List:") w in
      let w := print (str_mul "=" 80) w in
      let w := print list_heading w in
      let w := print (str_mul "-" 80) w in
      fold_left
        (fun w task => print (str_mul "=" 80) (print (list_row task) w))
        (tasks w) w
  end.

(** *** The methods that read the clock *)

Definition now : M reading :=
  fun s => Ret (clock (ticks s)) (mkSession (store s) (stdin s) (S (ticks s))).

(** [add_task] reads the clock after the check of the priority. *)
Definition add_task_io (name priority : string) : M unit :=
  if negb (dict_mem priority PRIORITY_COLORS) then call (add_task "" name priority)
  else
    t <- now ;;
    call (add_task (stamp t) name priority).

(** [export_to_markdown] reads it twice, for the name and for the
    heading, when there is a task. *)
Definition export_to_markdown_io : M (option string) :=
  fun s =>
    match tasks (store s) with
    | [] =>
        let (r, w) := export_to_markdown "" "" (store s) in
        Ret r (mkSession w (stdin s) (ticks s))
    | _ :: _ =>
        let (r, w) :=
          export_to_markdown (stamp_file (clock (ticks s)))
            (stamp (clock (S (ticks s)))) (store s) in
        Ret r (mkSession w (stdin s) (S (S (ticks s))))
    end.

(** *** [display_menu] *)

Definition display_menu : M string :=
  call (print (nl +:+ "To-Do List")) ;;;
  call (print "1. Add Task") ;;;
  call (print "2. Mark Task") ;;;
  call (print "3. List Tasks") ;;;
  call (print "4. Delete Task") ;;;
  call (print "5. Update Task") ;;;
  call (print "6. Export Tasks") ;;;
  call (print "7. Exit") ;;;
  input "Select an option: ".

(** *** [main] *)

Definition bad_number : M unit :=
  call (print "Please enter a valid task number.").

(** [todo.save_tasks()] in a session.  The call raises only for a store
    with an id of more than 4300 digits, which takes more tasks than a
    session adds: such a session is given no outcome. *)
Definition save_tasks_io : M unit :=
  fun s => if dump_completes (store s) then call save_tasks s else NoModel.

(** One turn of the [while True] loop after the menu: the branch for
    [choice].  The value is [false] for [break]. *)
Definition menu_action (choice : string) : M bool :=
  if String.eqb choice "1" then
    name <- input "Enter task name: " ;;
    line <- input "Enter priority (1: high | 2: medium | 3: low): " ;;
    priority_input <- int_of line ;;
    let priority := map_get priority_map (KInt priority_input) in
    let priority := if negb (truthy priority) then "medium" else the_str priority in
    add_task_io name priority ;;;
    ret true
  else if String.eqb choice "2" then
    try_except_ValueError
      (line <- input "Enter task number to mark as done/undone: " ;;
       task_id <- int_of line ;;
       call (mark_done task_id))
      bad_number ;;;
    ret true
  else if String.eqb choice "3" then
    call list_tasks ;;;
    ret true
  else if String.eqb choice "4" then
    try_except_ValueError
      (line <- input "Enter task number to delete: " ;;
       task_id <- int_of line ;;
       call (delete_task task_id))
      bad_number ;;;
    ret true
  else if String.eqb choice "5" then
    try_except_ValueError
      (line <- input "Enter task number to update: " ;;
       task_id <- int_of line ;;
       name <- input "Enter new name: " ;;
       line <- input "Enter a new priority (1: high | 2: medium | 3: low): " ;;
       _ <- int_of line ;;
       line <- input "Enter priority (1: high | 2: medium 3: low): " ;;
       priority_input <- int_of line ;;
       let priority := map_get priority_map (KInt priority_input) in
       call (update_task task_id (Some name) priority))
      bad_number ;;;
    ret true
  else if String.eqb choice "6" then
    _ <- export_to_markdown_io ;;
    ret true
  else if String.eqb choice "7" then
    save_tasks_io ;;;
    call (print "Goodbye!") ;;;
    ret false
  else
    call (print "Invalid option. Please try again") ;;;
    ret true.

(** The loop; every turn reads a line or ends, so [fuel] above the
    number of lines is never used up. *)
Fixpoint main_loop (fuel : nat) : M unit :=
  match fuel with
  | O => fun _ => OutOfFuel
  | S fuel =>
      choice <- display_menu ;;
      continue <- menu_action choice ;;
      if continue : bool then main_loop fuel else ret tt
  end.

(** [main()], on the files [fs] and the typed lines [lines]. *)
Definition main (fs : gmap string string) (lines : list string) : outcome unit :=
  match TodoList fs with
  | Some w => main_loop (S (length lines)) (mkSession w lines 0)
  | None => NoModel
  end.

End Console.

(** ** Queries and runs used in the statements *)

(** The task a scan for [task_id] stops at: the first one with that id. *)
Definition find_task (task_id : Z) (l : list task) : option task :=
  List.find (fun t => id t =? task_id) l.

Definition ids (w : world) : list Z := id <$> tasks w.

(** No two tasks of the collection share an id. *)
Definition ids_unique (w : world) : Prop := NoDup (ids w).

(** The ids are the numbers from 1 to the number of tasks. *)
Definition ids_dense (w : world) : Prop :=
  ids w ≡ₚ seqZ 1 (Z.of_nat (length (tasks w))).

(** A call of one of the four mutating methods. *)
Inductive op : Type :=
  | OpAdd (now name priority : string)
  | OpDelete (task_id : Z)
  | OpUpdate (task_id : Z) (name priority : option string)
  | OpToggle (task_id : Z).

Definition step (o : op) (w : world) : world :=
  match o with
  | OpAdd now name priority => add_task now name priority w
  | OpDelete task_id => delete_task task_id w
  | OpUpdate task_id name priority => update_task task_id name priority w
  | OpToggle task_id => mark_done task_id w
  end.

Definition run (ops : list op) (w : world) : world :=
  fold_left (fun w o => step o w) ops w.

Definition is_delete (o : op) : bool :=
  match o with
  | OpDelete _ => true
  | _ => false
  end.

(** The store before any call, when no tasks file was found. *)
Definition empty_store : world := mkWorld [] "tasks.json" [] ∅.

(** Two calls of [mark_done] bring the task with the id back to its done
    value and to its place among the tasks of its key. *)
Definition toggle_twice_restores (task_id : Z) (w : world) : Prop :=
  forall t, find_task task_id (tasks w) = Some t ->
    let w2 := mark_done task_id (mark_done task_id w) in
    done <$> find_task task_id (tasks w2) = Some (done t)
    /\ filter (fun u => sort_key u = sort_key t) (tasks w2)
       = filter (fun u => sort_key u = sort_key t) (tasks w).

(** Stores for examples. *)
Definition sort_example : world :=
  mkWorld [mkTask 1 "A" "low" false "t1"; mkTask 2 "B" "high" true "t2";
           mkTask 3 "C" "high" false "t3"; mkTask 4 "D" "medium" false "t4"]
    "tasks.json" [] ∅.

Definition toggle_example : world :=
  mkWorld [mkTask 1 "A" "high" false "t1"; mkTask 2 "B" "high" false "t2";
           mkTask 3 "C" "low" true "t3"] "tasks.json" [] ∅.

(** Every run of calls from the empty store leaves the ids distinct. *)
Definition ids_always_unique : Prop :=
  forall ops, ids_unique (run ops empty_store).

(** ** Order and decoding, as the statements speak of them *)

(** [a <= b] on keys is [not (b < a)]. *)
Definition key_le (a b : bool * Z) : Prop := key_ltb b a = false.

Definition task_le (x y : task) : Prop := key_le (sort_key x) (sort_key y).

(** The list is ordered by the key. *)
Definition sorted (l : list task) : Prop := StronglySorted task_le l.

(** What may stand after a number: no digit, fraction or exponent. *)
Definition follower (rest : string) : Prop :=
  starts_with_digit rest = false /\ float_follows rest = false.

(** The text [txt] is read back as [x] by [scan_once] with fuel [f] and
    depth [d], whatever follower stands after it. *)
Definition decodes (f d : nat) (txt : string) (x : value) : Prop :=
  forall rest, follower rest ->
    skip_ws (txt +:+ rest) = txt +:+ rest
    /\ scan_once f d (txt +:+ rest) = Ok x rest.

(** No id has more digits than a conversion takes. *)
Definition ids_within_limit (l : list task) : bool :=
  forallb (fun t => int_ok (id t)) l.

(** The end of the outer list, and what [json.dump] has written of a
    task, and of a list, when the id of its first task raises. *)
Definition list_close : string := newline_indent 2 0 +:+ "]".

Definition task_cut : string :=
  "{" +:+ newline_indent 2 2 +:+ encode_basestring_ascii "id" +:+ ": ".


(** The characters a JSON value begins with: those of a string, a
    dictionary, a list, [null], [true], [false], a number, [NaN] and
    [Infinity]. *)
Definition value_start (c : ascii) : bool :=
  Ascii.eqb c json.dquote || Ascii.eqb c "{" || Ascii.eqb c "["
  || Ascii.eqb c "n" || Ascii.eqb c "t" || Ascii.eqb c "f"
  || Ascii.eqb c "-" || is_digit c || Ascii.eqb c "N" || Ascii.eqb c "I".

(** The text is empty or white space, or the first character after the
    white space begins no value. *)
Definition no_value (text : string) : bool :=
  match skip_ws text with
  | EmptyString => true
  | String c _ => negb (value_start c)
  end.


(** The numeral of [n] digits [d]. *)
Fixpoint digits (d : Decimal.uint -> Decimal.uint) (n : nat) : Decimal.uint :=
  match n with
  | O => Decimal.Nil
  | S n => d (digits d n)
  end.

(** The greatest integer within the digit limit, written with 4300
    nines, and the least one beyond it, written as 1 and 4300 zeros. *)
Definition longest_id : Z := Z.of_uint (digits Decimal.D9 4300).

Definition long_id : Z := Z.of_uint (Decimal.D1 (digits Decimal.D0 4300)).


Definition longest_id_store : world :=
  mkWorld [mkTask longest_id "tea" "medium" false "2024-01-03 09:00:00"]
    "tasks.json" [] ∅.


(** What [json.dump] writes between two items of the outer list. *)
Definition item_sep : string := "," +:+ newline_indent 2 1.

(** ** More notions for statements about the store *)

(** Every task's priority is one of the keys of [PRIORITY_COLORS]. *)
Definition priorities_valid (w : world) : Prop :=
  Forall (fun t => dict_mem (priority t) PRIORITY_COLORS = true) (tasks w).

(** What [update_task] makes of the task it finds when it accepts the
    arguments: a name that is given replaces the name, and so for the
    priority. *)
Definition updated (name priority : option string) (t : task) : task :=
  let t := if truthy name then set_name (the_str name) t else t in
  if truthy priority then set_priority (the_str priority) t else t.

(** All characters are below 128. *)
Definition ascii_only (s : string) : bool :=
  all_chars (fun c => (N_of_ascii c <? 128)%N) s.

(** The item lines of the two sections of the exported document. *)
Definition pending_item (t : task) : string :=
  "- [ ] " +:+ priority_tag t +:+ name t +:+ nl.

Definition completed_item (t : task) : string :=
  "['- [x] ']" +:+ priority_tag t +:+ name t +:+ nl.

(** ** Notions for statements about the console *)

(** What a turn of the menu can do to a session short of option 7: it
    reads lines and never puts one back, and it leaves the name of the
    tasks file and what that file holds as they are. *)
Definition session_frame (s s' : session) : Prop :=
  (length (stdin s') <= length (stdin s))%nat
  /\ filename (store s') = filename (store s)
  /\ files (store s') !! "tasks.json" = files (store s) !! "tasks.json".

(** The computation [m] ends, stays within [session_frame] whether it
    returns or raises, and returns only values that satisfy [P]. *)
Definition keeps {A} (P : A -> Prop) (m : M A) : Prop :=
  forall s,
    match m s with
    | Ret a s' => session_frame s s' /\ P a
    | Raise _ s' => session_frame s s'
    | NoModel => True
    | OutOfFuel => False
    end.

Definition rule (c : string) : string := str_mul c 80.

(** A method that leaves the file name and the tasks file alone. *)
Definition world_frame (f : world -> world) : Prop :=
  forall w, filename (f w) = filename w
            /\ files (f w) !! "tasks.json" = files w !! "tasks.json".

(** The lines of the menu, and the store once [display_menu] has shown
    them and asked for the option. *)
Definition menu_lines : list string :=
  [nl +:+ "To-Do List"; "1. Add Task"; "2. Mark Task"; "3. List Tasks";
   "4. Delete Task"; "5. Update Task"; "6. Export Tasks"; "7. Exit"].

Definition menu_shown (w : world) : world :=
  prompt "Select an option: " (fold_left (fun w l => print l w) menu_lines w).

(** A clock that stands still, for examples. *)
Definition noon (n : nat) : reading :=
  mkReading "2024-01-01 12:00:00" "20240101_120000".

(** * Facts about the sort *)

Section SortFacts.

Lemma key_ltb_irrefl a : key_ltb a a = false.
Proof.
  destruct a as [b z]. unfold key_ltb. simpl.
  rewrite Bool.eqb_reflx. apply Z.ltb_irrefl.
Qed.

Lemma key_ltb_lt a b : key_ltb a b = true -> key_ltb b a = false.
Proof.
  destruct a as [[] x], b as [[] y]; unfold key_ltb; simpl; intros H;
    try reflexivity; try discriminate; lia.
Qed.

Lemma key_le_total a b : key_le a b \/ key_le b a.
Proof.
  unfold key_le. destruct (key_ltb b a) eqn:E; [right | left; reflexivity].
  now apply key_ltb_lt.
Qed.

Lemma key_le_trans a b c : key_le a b -> key_le b c -> key_le a c.
Proof.
  destruct a as [[] x], b as [[] y], c as [[] z]; unfold key_le, key_ltb;
    simpl; intros H1 H2; try reflexivity; try discriminate; lia.
Qed.

Lemma key_le_antisym a b : key_le a b -> key_le b a -> a = b.
Proof.
  destruct a as [[] x], b as [[] y]; unfold key_le, key_ltb; simpl;
    intros H1 H2; try discriminate; f_equal; lia.
Qed.

Lemma key_le_refl a : key_le a a.
Proof. apply key_ltb_irrefl. Qed.

Lemma task_le_trans x y z : task_le x y -> task_le y z -> task_le x z.
Proof. apply key_le_trans. Qed.

Lemma insert_sorted_perm x l : insert_sorted x l ≡ₚ x :: l.
Proof.
  induction l as [|y r IH]; simpl; [reflexivity|].
  destruct (key_ltb (sort_key y) (sort_key x)); [|reflexivity].
  rewrite IH. apply perm_swap.
Qed.

Lemma list_sort_perm l : list_sort l ≡ₚ l.
Proof.
  induction l as [|x r IH]; simpl; [reflexivity|].
  now rewrite insert_sorted_perm, IH.
Qed.

Lemma list_sort_length l : length (list_sort l) = length l.
Proof. apply Permutation_length, list_sort_perm. Qed.

Lemma insert_sorted_sorted x l : sorted l -> sorted (insert_sorted x l).
Proof.
  unfold sorted. induction l as [|y r IH]; simpl; intros Hs.
  - repeat constructor.
  - apply StronglySorted_inv in Hs as [Hr Hy].
    destruct (key_ltb (sort_key y) (sort_key x)) eqn:E.
    + constructor; [now apply IH|].
      rewrite insert_sorted_perm. constructor; [|exact Hy].
      now apply key_ltb_lt.
    + constructor; [now constructor|].
      constructor; [exact E|].
      eapply Forall_impl; [exact Hy|].
      intros z Hz. eapply task_le_trans; [exact E | exact Hz].
Qed.

Lemma list_sort_sorted l : sorted (list_sort l).
Proof.
  induction l as [|x r IH]; simpl; [constructor|].
  now apply insert_sorted_sorted.
Qed.

(** Inserting in front of a list whose elements are all at least [x]. *)
Lemma insert_sorted_head x l :
  Forall (task_le x) l -> insert_sorted x l = x :: l.
Proof.
  destruct l as [|y r]; simpl; [reflexivity|]. intros H.
  apply Forall_inv in H. unfold task_le, key_le in H. now rewrite H.
Qed.

Lemma list_sort_id l : sorted l -> list_sort l = l.
Proof.
  induction 1 as [|x r Hr IH Hx]; simpl; [reflexivity|].
  rewrite IH. now apply insert_sorted_head.
Qed.

(** Stability, one key at a time. *)
Lemma insert_sorted_filter_key k x l :
  filter (fun u => sort_key u = k) (insert_sorted x l)
  = filter (fun u => sort_key u = k) (x :: l).
Proof.
  induction l as [|y r IH]; simpl; [reflexivity|].
  destruct (key_ltb (sort_key y) (sort_key x)) eqn:E; [|reflexivity].
  rewrite (filter_cons _ y), IH, !(filter_cons _ x), (filter_cons _ y).
  destruct (decide (sort_key x = k)) as [Hx|Hx]; [|reflexivity].
  destruct (decide (sort_key y = k)) as [Hy|Hy]; [|reflexivity].
  rewrite Hx, Hy, key_ltb_irrefl in E. discriminate.
Qed.

Lemma list_sort_filter_key k l :
  filter (fun u => sort_key u = k) (list_sort l)
  = filter (fun u => sort_key u = k) l.
Proof.
  induction l as [|x r IH]; simpl; [reflexivity|].
  now rewrite insert_sorted_filter_key, !(filter_cons _ x), IH.
Qed.

(** Removing elements commutes with the sort. *)
Lemma insert_sorted_filter (P : task -> Prop) `{!forall u, Decision (P u)} x l :
  sorted l ->
  filter P (insert_sorted x l)
  = if decide (P x) then insert_sorted x (filter P l) else filter P l.
Proof.
  induction 1 as [|y r Hr IH Hy]; simpl.
  - rewrite filter_cons, filter_nil. now destruct (decide (P x)).
  - destruct (key_ltb (sort_key y) (sort_key x)) eqn:E.
    + rewrite !(filter_cons _ y), IH.
      destruct (decide (P x)), (decide (P y)); simpl; try reflexivity.
      now rewrite E.
    + rewrite (filter_cons _ x).
      destruct (decide (P x)); [|reflexivity].
      symmetry. apply insert_sorted_head.
      apply Forall_forall. intros z Hz.
      apply list_elem_of_filter in Hz as [_ Hz].
      apply elem_of_cons in Hz as [->|Hz]; [exact E|].
      eapply task_le_trans; [exact E|].
      rewrite Forall_forall in Hy. now apply Hy.
Qed.

Lemma list_sort_filter (P : task -> Prop) `{!forall u, Decision (P u)} l :
  filter P (list_sort l) = list_sort (filter P l).
Proof.
  induction l as [|x r IH]; simpl; [reflexivity|].
  rewrite insert_sorted_filter by apply list_sort_sorted.
  rewrite filter_cons, IH. now destruct (decide (P x)).
Qed.

(** Two lists ordered by the key with the same elements of every key,
    in the same order, are the same list. *)
Lemma sorted_filters_eq l1 l2 :
  sorted l1 -> sorted l2 ->
  (forall k, filter (fun u => sort_key u = k) l1
             = filter (fun u => sort_key u = k) l2) ->
  l1 = l2.
Proof.
  intros H1. revert l2.
  induction H1 as [|x r1 Hr1 IH Hx1]; intros l2 H2 Hf.
  - destruct l2 as [|y r2]; [reflexivity|].
    specialize (Hf (sort_key y)).
    rewrite filter_nil, filter_cons_True in Hf by reflexivity. discriminate.
  - destruct H2 as [|y r2 Hr2 Hy2].
    + specialize (Hf (sort_key x)).
      rewrite filter_nil, filter_cons_True in Hf by reflexivity. discriminate.
    + assert (Hxy : sort_key x = sort_key y).
      { apply key_le_antisym.
        - pose proof (Hf (sort_key y)) as Hk.
          rewrite (filter_cons_True _ y) in Hk by reflexivity.
          assert (Hin : y ∈ x :: r1).
          { eapply list_elem_of_filter. rewrite Hk. left. }
          apply elem_of_cons in Hin as [->|Hin]; [apply key_le_refl|].
          rewrite Forall_forall in Hx1. now apply Hx1.
        - pose proof (Hf (sort_key x)) as Hk.
          rewrite (filter_cons_True _ x) in Hk by reflexivity.
          assert (Hin : x ∈ y :: r2).
          { eapply list_elem_of_filter. rewrite <- Hk. left. }
          apply elem_of_cons in Hin as [->|Hin]; [apply key_le_refl|].
          rewrite Forall_forall in Hy2. now apply Hy2. }
      pose proof (Hf (sort_key x)) as Hk.
      rewrite (filter_cons_True _ x), (filter_cons_True _ y) in Hk by auto.
      injection Hk as -> Hk. f_equal. apply IH; [exact Hr2|].
      intros k. specialize (Hf k). rewrite !(filter_cons _ y) in Hf.
      destruct (decide (sort_key y = k)); congruence.
Qed.

(** [list_sort] computes the only stable sort there is. *)
Lemma stable_sort_unique l l' :
  sorted l' ->
  (forall k, filter (fun u => sort_key u = k) l'
             = filter (fun u => sort_key u = k) l) ->
  l' = list_sort l.
Proof.
  intros Hs Hf. apply sorted_filters_eq; [exact Hs | apply list_sort_sorted|].
  intros k. now rewrite Hf, list_sort_filter_key.
Qed.

(** In a list ordered by the key, a strictly smaller key comes first. *)
Lemma sorted_lookup_lt l i j a b :
  sorted l -> l !! i = Some a -> l !! j = Some b ->
  key_ltb (sort_key a) (sort_key b) = true -> (i < j)%nat.
Proof.
  intros Hs. revert i j. induction Hs as [|x r Hr IH Hx]; intros i j Hi Hj Hlt.
  - rewrite lookup_nil in Hi. discriminate.
  - destruct i as [|i], j as [|j]; simpl in Hi, Hj.
    + injection Hi as ->. injection Hj as ->.
      rewrite key_ltb_irrefl in Hlt. discriminate.
    + lia.
    + injection Hj as ->. rewrite Forall_forall in Hx.
      assert (Hin : a ∈ r).
      { apply list_elem_of_lookup. eauto. }
      specialize (Hx a Hin). unfold task_le, key_le in Hx.
      rewrite Hx in Hlt. discriminate.
    + specialize (IH i j Hi Hj Hlt). lia.
Qed.

End SortFacts.

(** * Facts about the scans *)

Section ScanFacts.

Lemma assign_middle l1 t l2 f w :
  tasks w = l1 ++ t :: l2 ->
  assign (length l1) f w = set_tasks (l1 ++ f t :: l2) w.
Proof.
  intros H. unfold assign. rewrite H. f_equal.
  rewrite alter_app_r_alt by lia. now rewrite Nat.sub_diag.
Qed.

Lemma update_loop_found i nm p l1 t l2 w k :
  Forall (fun u => id u <> i) l1 -> id t = i ->
  update_loop i nm p k (l1 ++ t :: l2) w
  = update_found i nm p (k + length l1) w.
Proof.
  intros H Ht. revert k. induction H as [|u r Hu Hr IH]; intros k; simpl.
  - rewrite (proj2 (Z.eqb_eq _ _) Ht). now rewrite Nat.add_0_r.
  - rewrite (proj2 (Z.eqb_neq _ _) Hu), IH. f_equal. lia.
Qed.

Lemma update_loop_missing i nm p l w k :
  Forall (fun u => id u <> i) l ->
  update_loop i nm p k l w = print (not_found_msg i) w.
Proof.
  intros H. revert k. induction H as [|u r Hu Hr IH]; intros k; simpl.
  - reflexivity.
  - now rewrite (proj2 (Z.eqb_neq _ _) Hu), IH.
Qed.

Lemma mark_loop_found i l1 t l2 w k :
  Forall (fun u => id u <> i) l1 -> id t = i ->
  mark_loop i k (l1 ++ t :: l2) w = mark_found i (k + length l1) t w.
Proof.
  intros H Ht. revert k. induction H as [|u r Hu Hr IH]; intros k; simpl.
  - rewrite (proj2 (Z.eqb_eq _ _) Ht). now rewrite Nat.add_0_r.
  - rewrite (proj2 (Z.eqb_neq _ _) Hu), IH. f_equal. lia.
Qed.

Lemma mark_loop_missing i l w k :
  Forall (fun u => id u <> i) l ->
  mark_loop i k l w = print (not_found_msg i) w.
Proof.
  intros H. revert k. induction H as [|u r Hu Hr IH]; intros k; simpl.
  - reflexivity.
  - now rewrite (proj2 (Z.eqb_neq _ _) Hu), IH.
Qed.

Lemma delete_loop_found i l1 t l2 w k :
  Forall (fun u => id u <> i) l1 -> id t = i ->
  delete_loop i k (l1 ++ t :: l2) w
  = let w' := mkWorld (tasks w) (filename w)
                (stdout w ++ replicate (length l1) (not_found_msg i))
                (files w) in
    match pop (k + length l1) (tasks w) with
    | Some (deleted_task, l) =>
        print ("Deleted task: " +:+ name deleted_task) (set_tasks l w')
    | None => w'
    end.
Proof.
  intros H Ht. revert k w. induction H as [|u r Hu Hr IH]; intros k w; simpl.
  - rewrite (proj2 (Z.eqb_eq _ _) Ht), Nat.add_0_r, app_nil_r.
    now destruct w.
  - rewrite (proj2 (Z.eqb_neq _ _) Hu), IH. simpl.
    rewrite <- app_assoc. simpl.
    now replace (k + S (length r))%nat with (S (k + length r)) by lia.
Qed.

(** When no task has the id, the report is printed once for every task
    of the collection. *)
Lemma delete_loop_missing i l w k :
  Forall (fun u => id u <> i) l ->
  delete_loop i k l w
  = mkWorld (tasks w) (filename w)
      (stdout w ++ replicate (length l) (not_found_msg i)) (files w).
Proof.
  intros H. revert k w. induction H as [|u r Hu Hr IH]; intros k w; simpl.
  - rewrite app_nil_r. now destruct w.
  - rewrite (proj2 (Z.eqb_neq _ _) Hu), IH. simpl. now rewrite <- app_assoc.
Qed.

Lemma delete_task_missing i w :
  Forall (fun u => id u <> i) (tasks w) ->
  delete_task i w
  = mkWorld (tasks w) (filename w)
      (stdout w ++ replicate (length (tasks w)) (not_found_msg i)) (files w).
Proof. apply delete_loop_missing. Qed.

Lemma delete_task_found i l1 t l2 w :
  tasks w = l1 ++ t :: l2 ->
  Forall (fun u => id u <> i) l1 -> id t = i ->
  delete_task i w
  = mkWorld (l1 ++ l2) (filename w)
      (stdout w ++ replicate (length l1) (not_found_msg i)
         ++ ["Deleted task: " +:+ name t])
      (files w).
Proof.
  intros Hw H Ht. unfold delete_task. rewrite Hw at 1.
  rewrite delete_loop_found by assumption. simpl. unfold pop. rewrite Hw.
  rewrite list_lookup_middle by reflexivity. rewrite delete_middle.
  unfold print, set_tasks. simpl. now rewrite <- app_assoc.
Qed.

Lemma valid_priority_cases p :
  dict_mem p PRIORITY_COLORS = true ->
  p = "high"%string \/ p = "medium"%string \/ p = "low"%string.
Proof.
  unfold dict_mem, PRIORITY_COLORS. cbn [existsb fst]. intros H.
  destruct (String.eqb "high" p) eqn:E1;
    [apply String.eqb_eq in E1; now left|].
  destruct (String.eqb "medium" p) eqn:E2;
    [apply String.eqb_eq in E2; now right; left|].
  destruct (String.eqb "low" p) eqn:E3;
    [apply String.eqb_eq in E3; now right; right|].
  discriminate.
Qed.

Lemma valid_priority_truthy p :
  dict_mem p PRIORITY_COLORS = true -> truthy (Some p) = true.
Proof.
  intros H. apply valid_priority_cases in H as [->|[->| ->]]; reflexivity.
Qed.

(** Every task has a first occurrence of its id. *)
Lemma first_with_id i (l : list task) :
  (exists t, t ∈ l /\ id t = i) ->
  exists l1 t l2, l = l1 ++ t :: l2 /\ Forall (fun u => id u <> i) l1 /\ id t = i.
Proof.
  induction l as [|x r IH]; intros (t & Hin & Ht).
  - now apply elem_of_nil in Hin.
  - destruct (decide (id x = i)) as [Hx|Hx].
    + exists [], x, r. repeat split; [constructor | exact Hx].
    + apply elem_of_cons in Hin as [->|Hin]; [contradiction|].
      destruct IH as (l1 & u & l2 & -> & Hl1 & Hu); [eauto|].
      exists (x :: l1), u, l2. repeat split; [now constructor | exact Hu].
Qed.

End ScanFacts.

(** * The operations of the store *)

Section Update.

(** With a name that is not empty and a priority that is not a key of
    [PRIORITY_COLORS], [update_task] has stored the name when it reports
    the priority, and returns without sorting. *)
Lemma update_task_invalid_priority i nm p w l1 t l2 :
  tasks w = l1 ++ t :: l2 ->
  Forall (fun u => id u <> i) l1 -> id t = i ->
  truthy (Some nm) = true -> truthy (Some p) = true ->
  dict_mem p PRIORITY_COLORS = false ->
  update_task i (Some nm) (Some p) w
  = mkWorld (l1 ++ set_name nm t :: l2) (filename w)
      (stdout w ++ [invalid_priorty_msg]) (files w).
Proof.
  intros Hw Hl1 Ht Hnm Hp Hbad. unfold update_task. rewrite Hw at 1.
  rewrite update_loop_found by assumption. simpl.
  unfold update_found. rewrite Hnm, Hp. cbn [the_str]. rewrite Hbad.
  now rewrite (assign_middle l1 t l2).
Qed.

(** C1: at the store holding the one task (1, "A", high), the call
    update(1, name="X", priority="bogus") reports the invalid priority
    and the task's name is "X" afterwards: the name was stored before
    the priority was checked. *)
Theorem update_task_invalid_priority_renames :
  update_task 1 (Some "X") (Some "bogus")
    (mkWorld [mkTask 1 "A" "high" false "2024-01-01 00:00:00"]
       "tasks.json" [] ∅)
  = mkWorld [mkTask 1 "X" "high" false "2024-01-01 00:00:00"]
      "tasks.json" ["Invalid priorty. Choose from: high,medium,low"] ∅.
Proof. reflexivity. Qed.

(** C10: update(i, name="", priority=p) with p one of the three
    priorities leaves the name of the first task with id [i] as it was
    and stores [p] as its priority; its id, done and created_at fields
    and all other tasks are unchanged, the update is reported and the
    collection is sorted again. *)
Theorem update_task_empty_name_keeps_name i p w l1 t l2 :
  tasks w = l1 ++ t :: l2 ->
  Forall (fun u => id u <> i) l1 -> id t = i ->
  dict_mem p PRIORITY_COLORS = true ->
  update_task i (Some "") (Some p) w
  = mkWorld
      (list_sort
         (l1 ++ mkTask (id t) (name t) p (done t) (created_at t) :: l2))
      (filename w)
      (stdout w ++ ["Updated task " +:+ str_of_int i])
      (files w).
Proof.
  intros Hw Hl1 Ht Hp. unfold update_task. rewrite Hw at 1.
  rewrite update_loop_found by assumption. simpl.
  unfold update_found. rewrite (valid_priority_truthy p Hp).
  cbn [truthy the_str String.eqb negb]. rewrite Hp.
  now rewrite (assign_middle l1 t l2 _ w Hw).
Qed.

Lemma update_task_empty_name_witness :
  update_task 2 (Some "") (Some "high")
    (mkWorld [mkTask 1 "A" "low" false "t1"; mkTask 2 "B" "low" false "t2"]
       "tasks.json" [] ∅)
  = mkWorld [mkTask 2 "B" "high" false "t2"; mkTask 1 "A" "low" false "t1"]
      "tasks.json" ["Updated task 2"] ∅.
Proof.
  apply (update_task_empty_name_keeps_name 2 "high"
           (mkWorld [mkTask 1 "A" "low" false "t1";
                     mkTask 2 "B" "low" false "t2"] "tasks.json" [] ∅)
           [mkTask 1 "A" "low" false "t1"] (mkTask 2 "B" "low" false "t2") []).
  - reflexivity.
  - constructor; [simpl; lia | constructor].
  - reflexivity.
  - reflexivity.
Defined.

End Update.

Section Delete.

(** C2: delete(3) on a store whose two tasks have ids 1 and 2 prints
    the not-found report twice, once per task visited, and on the
    empty store it prints nothing. *)
Theorem delete_task_missing_reports_per_task :
  stdout (delete_task 3
            (mkWorld [mkTask 1 "A" "high" false "t1";
                      mkTask 2 "B" "low" false "t2"] "tasks.json" [] ∅))
  = ["No task found with ID 3"; "No task found with ID 3"]
  /\ stdout (delete_task 3 (mkWorld [] "tasks.json" [] ∅)) = [].
Proof. split; reflexivity. Qed.

End Delete.

Section Sort.

(** The ranks of the three priorities. *)
Lemma priority_rank_high t : priority t = "high"%string -> priority_rank t = 0.
Proof. unfold priority_rank. now intros ->. Qed.

Lemma priority_rank_medium t :
  priority t = "medium"%string -> priority_rank t = 1.
Proof. unfold priority_rank. now intros ->. Qed.

Lemma priority_rank_low t : priority t = "low"%string -> priority_rank t = 2.
Proof. unfold priority_rank. now intros ->. Qed.

(** C3: after [sort_tasks] the collection holds the same tasks; a
    pending task stands before every completed one; of two tasks with
    the same done value a task of priority high stands before one of
    priority medium or low, and one of priority medium before one of
    priority low (in general: the one of smaller rank stands first, the
    ranks of high, medium and low being 0, 1 and 2); and the tasks of
    any one key are in the order they had before. *)
Theorem sort_tasks_correct (w : world) :
  tasks (sort_tasks w) ≡ₚ tasks w
  /\ (forall i j a b,
        tasks (sort_tasks w) !! i = Some a ->
        tasks (sort_tasks w) !! j = Some b ->
        done a = false -> done b = true -> (i < j)%nat)
  /\ (forall i j a b,
        tasks (sort_tasks w) !! i = Some a ->
        tasks (sort_tasks w) !! j = Some b ->
        done a = done b ->
        priority a = "high"%string
          /\ (priority b = "medium"%string \/ priority b = "low"%string)
        \/ priority a = "medium"%string /\ priority b = "low"%string ->
        (i < j)%nat)
  /\ (forall t,
        (priority t = "high"%string -> priority_rank t = 0)
        /\ (priority t = "medium"%string -> priority_rank t = 1)
        /\ (priority t = "low"%string -> priority_rank t = 2))
  /\ (forall i j a b,
        tasks (sort_tasks w) !! i = Some a ->
        tasks (sort_tasks w) !! j = Some b ->
        done a = done b -> priority_rank a < priority_rank b ->
        (i < j)%nat)
  /\ (forall k,
        filter (fun u => sort_key u = k) (tasks (sort_tasks w))
        = filter (fun u => sort_key u = k) (tasks w)).
Proof.
  assert (Hrank : forall i j a b,
            tasks (sort_tasks w) !! i = Some a ->
            tasks (sort_tasks w) !! j = Some b ->
            done a = done b -> priority_rank a < priority_rank b ->
            (i < j)%nat).
  { intros i j a b Hi Hj Hd Hr.
    apply (sorted_lookup_lt _ i j a b (list_sort_sorted _) Hi Hj).
    unfold sort_key, key_ltb. simpl. rewrite Hd, Bool.eqb_reflx.
    now apply Z.ltb_lt. }
  split; [apply list_sort_perm|]. split; [|split; [|split; [|split]]].
  - intros i j a b Hi Hj Ha Hb.
    apply (sorted_lookup_lt _ i j a b (list_sort_sorted _) Hi Hj).
    unfold sort_key, key_ltb. simpl. now rewrite Ha, Hb.
  - intros i j a b Hi Hj Hd Hp. apply (Hrank i j a b Hi Hj Hd).
    destruct Hp as [[Ha [Hb|Hb]]|[Ha Hb]].
    + rewrite (priority_rank_high a Ha), (priority_rank_medium b Hb). lia.
    + rewrite (priority_rank_high a Ha), (priority_rank_low b Hb). lia.
    + rewrite (priority_rank_medium a Ha), (priority_rank_low b Hb). lia.
  - intros t. split; [|split].
    + apply priority_rank_high.
    + apply priority_rank_medium.
    + apply priority_rank_low.
  - exact Hrank.
  - intros k. apply list_sort_filter_key.
Qed.

(** Four tasks: after the sort the pending ones stand in the order
    high, medium, low, and the completed one stands last. *)
Lemma sort_tasks_correct_witness :
  (0 < 1)%nat /\ (0 < 2)%nat /\ (1 < 2)%nat /\ (2 < 3)%nat.
Proof.
  pose proof (sort_tasks_correct sort_example) as (_ & Hd & Hp & _).
  split; [|split; [|split]].
  - exact (Hp 0%nat 1%nat (mkTask 3 "C" "high" false "t3")
             (mkTask 4 "D" "medium" false "t4") eq_refl eq_refl eq_refl
             (or_introl (conj eq_refl (or_introl eq_refl)))).
  - exact (Hp 0%nat 2%nat (mkTask 3 "C" "high" false "t3")
             (mkTask 1 "A" "low" false "t1") eq_refl eq_refl eq_refl
             (or_introl (conj eq_refl (or_intror eq_refl)))).
  - exact (Hp 1%nat 2%nat (mkTask 4 "D" "medium" false "t4")
             (mkTask 1 "A" "low" false "t1") eq_refl eq_refl eq_refl
             (or_intror (conj eq_refl eq_refl))).
  - exact (Hd 2%nat 3%nat (mkTask 1 "A" "low" false "t1")
             (mkTask 2 "B" "high" true "t2") eq_refl eq_refl eq_refl eq_refl).
Defined.

Lemma priority_rank_values d1 d2 d3 n1 n2 n3 c1 c2 c3 i1 i2 i3 :
  priority_rank (mkTask i1 n1 "high" d1 c1) = 0
  /\ priority_rank (mkTask i2 n2 "medium" d2 c2) = 1
  /\ priority_rank (mkTask i3 n3 "low" d3 c3) = 2.
Proof. repeat split. Qed.

End Sort.

Section Add.

(** C9: [add_task(name)] without a priority creates the task whose id
    is the number of tasks plus one, whose priority is "medium" and
    whose done field is [False]; the collection afterwards is the old
    one with that task appended, sorted again, so it holds the new
    task and is ordered by the key; the addition is reported. *)
Theorem add_task_default_creates now nm w :
  let t := mkTask (Z.of_nat (length (tasks w)) + 1) nm "medium" false now in
  add_task_default now nm w
  = mkWorld (list_sort (tasks w ++ [t])) (filename w)
      (stdout w ++ ["Task added: " +:+ nm]) (files w)
  /\ t ∈ tasks (add_task_default now nm w)
  /\ tasks (add_task_default now nm w) ≡ₚ tasks w ++ [t]
  /\ sorted (tasks (add_task_default now nm w)).
Proof.
  intros t.
  assert (H : add_task_default now nm w
              = mkWorld (list_sort (tasks w ++ [t])) (filename w)
                  (stdout w ++ ["Task added: " +:+ nm]) (files w))
    by reflexivity.
  rewrite H. cbn [tasks]. split; [reflexivity|]. split; [|split].
  - rewrite list_sort_perm. apply elem_of_app. right. left.
  - apply list_sort_perm.
  - apply list_sort_sorted.
Qed.

Lemma add_task_valid now nm p w :
  dict_mem p PRIORITY_COLORS = true ->
  add_task now nm p w
  = mkWorld
      (list_sort
         (tasks w ++ [mkTask (Z.of_nat (length (tasks w)) + 1) nm p false now]))
      (filename w)
      (stdout w ++ ["Task added: " +:+ nm])
      (files w).
Proof. intros H. unfold add_task. now rewrite H. Qed.

Lemma add_task_invalid now nm p w :
  dict_mem p PRIORITY_COLORS = false ->
  add_task now nm p w = print invalid_priority_msg w.
Proof. intros H. unfold add_task. now rewrite H. Qed.

End Add.

Section Exporter.

Lemma completed_line_done t :
  done t = true ->
  completed_line t = "['- [x] ']" +:+ priority_tag t +:+ name t +:+ nl.
Proof. intros H. unfold completed_line. now rewrite H. Qed.

(** C5: for the store holding the one completed task (1, "A", high),
    the exported document's line for it reads ['- [x] '][!high] A. *)
Theorem export_completed_line_is_list_repr :
  export_to_markdown "20240101_000000" "2024-01-01 00:00:00"
    (mkWorld [mkTask 1 "A" "high" true "2023-12-31 10:00:00"]
       "tasks.json" [] ∅)
  = (Some "todo_export_20240101_000000.md",
     mkWorld [mkTask 1 "A" "high" true "2023-12-31 10:00:00"] "tasks.json"
       ["Tasks exported to todo_export_20240101_000000.md"]
       {[ "todo_export_20240101_000000.md" :=
            "# Todo List" +:+ nl +:+ nl
            +:+ "Exported on : 2024-01-01 00:00:00" +:+ nl +:+ nl
            +:+ "## Pending Tasks" +:+ nl +:+ nl
            +:+ nl +:+ "## Completed Tasks" +:+ nl +:+ nl
            +:+ "['- [x] '][!high] A" +:+ nl ]}).
Proof. reflexivity. Qed.

(** C8: with an empty collection [export_to_markdown] returns [None],
    prints "No tasks to export." and leaves the files as they are. *)
Theorem export_empty_writes_nothing now_file now_line fn out fs :
  export_to_markdown now_file now_line (mkWorld [] fn out fs)
  = (None, mkWorld [] fn (out ++ ["No tasks to export."]) fs).
Proof. reflexivity. Qed.

End Exporter.

Section Ids.

Lemma alter_ids (f : task -> task) i (l : list task) :
  (forall t, id (f t) = id t) -> id <$> alter f i l = id <$> l.
Proof.
  intros Hf. rewrite (list_fmap_alter _ f (fun z => z))
    by (apply Forall_forall; intros; apply Hf).
  now apply list_alter_id.
Qed.

Lemma list_sort_ids l : id <$> list_sort l ≡ₚ id <$> l.
Proof. now rewrite list_sort_perm. Qed.

Lemma update_found_ids i nm p k w :
  ids (update_found i nm p k w) ≡ₚ ids w.
Proof.
  unfold update_found, ids.
  destruct (truthy nm), (truthy p);
    try destruct (dict_mem (the_str p) PRIORITY_COLORS); simpl;
    rewrite ?list_sort_ids, ?alter_ids; reflexivity || (intros []; reflexivity).
Qed.

Lemma update_task_ids i nm p w : ids (update_task i nm p w) ≡ₚ ids w.
Proof.
  unfold update_task. generalize 0%nat. generalize (tasks w) at 1.
  intros l. induction l as [|x r IH]; intros k; simpl; [reflexivity|].
  destruct (id x =? i); [apply update_found_ids | apply IH].
Qed.

Lemma mark_found_ids i k t w : ids (mark_found i k t w) ≡ₚ ids w.
Proof.
  unfold mark_found, ids. simpl.
  rewrite list_sort_ids, alter_ids; [reflexivity | intros []; reflexivity].
Qed.

Lemma mark_done_ids i w : ids (mark_done i w) ≡ₚ ids w.
Proof.
  unfold mark_done. generalize 0%nat. generalize (tasks w) at 1.
  intros l. induction l as [|x r IH]; intros k; simpl; [reflexivity|].
  destruct (id x =? i); [apply mark_found_ids | apply IH].
Qed.

Lemma delete_task_ids_sublist i w : ids (delete_task i w) `sublist_of` ids w.
Proof.
  unfold delete_task. generalize 0%nat. generalize (tasks w) at 1.
  intros l. revert w. induction l as [|x r IH]; intros w k; simpl;
    [reflexivity|].
  destruct (id x =? i).
  - unfold pop. destruct (tasks w !! k) eqn:E; [|reflexivity].
    unfold ids. simpl. rewrite list_fmap_delete. apply sublist_delete.
  - apply (IH (print (not_found_msg i) w)).
Qed.

Lemma add_task_ids now nm p w :
  ids (add_task now nm p w) ≡ₚ
  if dict_mem p PRIORITY_COLORS
  then ids w ++ [Z.of_nat (length (tasks w)) + 1]
  else ids w.
Proof.
  unfold add_task, ids. destruct (dict_mem p PRIORITY_COLORS); simpl;
    [|reflexivity].
  now rewrite list_sort_ids, fmap_app.
Qed.

Lemma ids_length w : length (ids w) = length (tasks w).
Proof. apply length_fmap. Qed.

Lemma ids_dense_length w w' :
  ids w' ≡ₚ ids w -> length (tasks w') = length (tasks w).
Proof.
  intros H. rewrite <- !ids_length. now apply Permutation_length.
Qed.

Lemma step_dense o w :
  is_delete o = false -> ids_dense w -> ids_dense (step o w).
Proof.
  unfold ids_dense. intros Ho Hw. destruct o as [now nm p|i|i nm p|i];
    simpl in *; try discriminate.
  - pose proof (add_task_ids now nm p w) as H.
    rewrite <- (ids_length (add_task now nm p w)), H.
    destruct (dict_mem p PRIORITY_COLORS); [|now rewrite ids_length].
    rewrite length_app, ids_length. simpl.
    rewrite Nat.add_1_r, seqZ_S, Hw.
    now rewrite (Z.add_comm 1).
  - pose proof (update_task_ids i nm p w) as H.
    now rewrite (ids_dense_length _ _ H), H.
  - pose proof (mark_done_ids i w) as H.
    now rewrite (ids_dense_length _ _ H), H.
Qed.

Lemma run_dense ops w :
  Forall (fun o => is_delete o = false) ops -> ids_dense w ->
  ids_dense (run ops w).
Proof.
  intros H. revert w. induction H as [|o r Ho Hr IH]; intros w Hw; simpl;
    [exact Hw|].
  apply IH. now apply step_dense.
Qed.

Lemma ids_dense_unique w : ids_dense w -> ids_unique w.
Proof. unfold ids_dense, ids_unique. intros ->. apply NoDup_seqZ. Qed.

Lemma nodup_id_eq (l : list task) a b :
  NoDup (id <$> l) -> a ∈ l -> b ∈ l -> id a = id b -> a = b.
Proof.
  induction l as [|x r IH]; intros Hn Ha Hb Hab.
  - now apply elem_of_nil in Ha.
  - rewrite fmap_cons in Hn. apply NoDup_cons in Hn as [Hx Hn].
    apply elem_of_cons in Ha as [->|Ha]; apply elem_of_cons in Hb as [->|Hb].
    + reflexivity.
    + exfalso. apply Hx. rewrite Hab. now apply list_elem_of_fmap_2.
    + exfalso. apply Hx. rewrite <- Hab. now apply list_elem_of_fmap_2.
    + now apply IH.
Qed.

Lemma find_task_first i l1 t l2 :
  Forall (fun u => id u <> i) l1 -> id t = i ->
  find_task i (l1 ++ t :: l2) = Some t.
Proof.
  intros H Ht. unfold find_task. induction H as [|u r Hu Hr IH]; simpl.
  - now rewrite (proj2 (Z.eqb_eq _ _) Ht).
  - now rewrite (proj2 (Z.eqb_neq _ _) Hu).
Qed.

Lemma find_task_unique (l : list task) t :
  NoDup (id <$> l) -> t ∈ l -> find_task (id t) l = Some t.
Proof.
  intros Hn Ht.
  destruct (first_with_id (id t) l) as (l1 & u & l2 & -> & Hl1 & Hu);
    [eauto|].
  rewrite find_task_first by assumption. f_equal.
  apply (nodup_id_eq (l1 ++ u :: l2)); auto.
  apply elem_of_app. right. left.
Qed.

Lemma find_task_Some i l t :
  find_task i l = Some t -> t ∈ l /\ id t = i.
Proof.
  unfold find_task. intros H. apply find_some in H as [Hin Hi].
  split; [now apply list_elem_of_In | now apply Z.eqb_eq].
Qed.

End Ids.

Section Toggle.

Lemma mark_done_found i l1 t l2 w :
  tasks w = l1 ++ t :: l2 ->
  Forall (fun u => id u <> i) l1 -> id t = i ->
  mark_done i w
  = mkWorld (list_sort (l1 ++ set_done (negb (done t)) t :: l2))
      (filename w)
      (stdout w ++ ["Marked task " +:+ str_of_int i +:+ " as "
                    +:+ (if negb (done t) then "completed" else "pending")])
      (files w).
Proof.
  intros Hw Hl1 Ht. unfold mark_done. rewrite Hw at 1.
  rewrite mark_loop_found by assumption. simpl. unfold mark_found.
  now rewrite (assign_middle l1 t l2 _ w Hw).
Qed.

Lemma mark_done_missing i w :
  Forall (fun u => id u <> i) (tasks w) ->
  mark_done i w = print (not_found_msg i) w.
Proof. apply mark_loop_missing. Qed.

Lemma filter_middle_drop (P : task -> Prop) `{!forall u, Decision (P u)}
    l1 x l2 :
  ~ P x -> filter P (l1 ++ x :: l2) = filter P (l1 ++ l2).
Proof.
  intros Hx. now rewrite !filter_app, filter_cons_False.
Qed.

Lemma set_done_twice t :
  set_done (negb (done (set_done (negb (done t)) t)))
    (set_done (negb (done t)) t) = t.
Proof. destruct t as [? ? ? [] ?]; reflexivity. Qed.

Lemma filter_all (P : task -> Prop) `{!forall u, Decision (P u)} l :
  Forall P l -> filter P l = l.
Proof.
  induction 1 as [|x r Hx Hr IH]; [reflexivity|].
  now rewrite filter_cons_True, IH.
Qed.

Lemma filter_none (P : task -> Prop) `{!forall u, Decision (P u)} l :
  Forall (fun u => ~ P u) l -> filter P l = [].
Proof.
  induction 1 as [|x r Hx Hr IH]; [reflexivity|].
  now rewrite filter_cons_False, IH.
Qed.

(** In an ordered list, what stands before a task is not above it and
    what stands after it is not below it. *)
Lemma sorted_middle a x b :
  sorted (a ++ x :: b) ->
  Forall (fun y => task_le y x) a /\ Forall (task_le x) b.
Proof.
  induction a as [|y a IH]; intros H.
  - split; [constructor|]. now inversion H.
  - inversion H as [|? ? Hs Hy]; subst.
    destruct (IH Hs) as [Ha Hb]. split; [|exact Hb].
    constructor; [|exact Ha].
    rewrite Forall_app, Forall_cons in Hy. apply Hy.
Qed.

(** The key of a task before its toggle lies on the other side of the
    key after it. *)
Lemma toggled_key_after t x :
  done t = false -> task_le (set_done (negb (done t)) t) x ->
  sort_key x <> sort_key t.
Proof.
  intros Hd Hle E. unfold task_le, key_le in Hle. rewrite E in Hle.
  unfold sort_key, key_ltb, priority_rank in Hle. rewrite Hd in Hle.
  simpl in Hle. discriminate.
Qed.

Lemma toggled_key_before t x :
  done t = true -> task_le x (set_done (negb (done t)) t) ->
  sort_key x <> sort_key t.
Proof.
  intros Hd Hle E. unfold task_le, key_le in Hle. rewrite E in Hle.
  unfold sort_key, key_ltb, priority_rank in Hle. rewrite Hd in Hle.
  simpl in Hle. discriminate.
Qed.

Lemma find_task_only i (l : list task) t :
  t ∈ l -> (forall u, u ∈ l -> id u = i -> u = t) -> id t = i ->
  find_task i l = Some t.
Proof.
  intros Hin Hu Ht.
  destruct (first_with_id i l) as (l1 & u & l2 & -> & Hl1 & Hi); [eauto|].
  rewrite (find_task_first i l1 u l2 Hl1 Hi). f_equal. apply Hu; [|exact Hi].
  apply elem_of_app. right. left.
Qed.

(** A list that is the same with [t] put before it and with [t] put
    into it holds nothing but [t] up to that place. *)
Lemma cons_eq_middle (t : task) x :
  forall y, t :: x ++ y = x ++ t :: y -> Forall (eq t) x.
Proof.
  induction x as [|a x IH]; intros y H; [constructor|].
  injection H as -> H. constructor; [reflexivity|]. now apply (IH y).
Qed.

(** Among tasks none of which has the id of [t], [t] keeps its place
    when taken to the front only if none stands before it, and when
    taken to the end only if none stands after it. *)
Lemma front_eq_middle i (t : task) x y :
  id t = i -> Forall (fun u => id u <> i) x ->
  t :: x ++ y = x ++ t :: y -> x = [].
Proof.
  intros Hi Hx H. apply cons_eq_middle in H.
  destruct x as [|a x]; [reflexivity|].
  apply Forall_cons in H as [<- _]. apply Forall_cons in Hx as [Ha _].
  now destruct Ha.
Qed.

Lemma end_eq_middle i (t : task) x y :
  id t = i -> Forall (fun u => id u <> i) y ->
  (x ++ y) ++ [t] = x ++ t :: y -> y = [].
Proof.
  intros Hi Hy H. rewrite <- app_assoc in H. apply app_inv_head in H.
  apply (front_eq_middle i t y [] Hi Hy). now rewrite app_nil_r.
Qed.

(** The store after two toggles of the only task with the id [i]: the
    stable sort of the store, with that task taken last if it was
    pending and first if it was done. *)
Lemma toggle_twice_tasks i w l1 t l2 :
  tasks w = l1 ++ t :: l2 ->
  Forall (fun u => id u <> i) l1 -> Forall (fun u => id u <> i) l2 ->
  id t = i ->
  tasks (mark_done i (mark_done i w))
  = list_sort (if done t then t :: l1 ++ l2 else l1 ++ l2 ++ [t]).
Proof.
  intros Hw Hl1 Hl2 Hi.
  pose proof (mark_done_found i l1 t l2 w Hw Hl1 Hi) as H1.
  remember (mark_done i w) as w1 eqn:Ew1.
  remember (set_done (negb (done t)) t) as t' eqn:Et'.
  assert (Hi' : id t' = i) by (subst t'; exact Hi).
  assert (Hni : ~ (fun u => id u <> i) t) by (intros Hx; now apply Hx).
  assert (Hni' : ~ (fun u => id u <> i) t') by (intros Hx; now apply Hx).
  assert (Ht1 : tasks w1 = list_sort (l1 ++ t' :: l2)) by now rewrite H1.
  assert (Hp1 : tasks w1 ≡ₚ l1 ++ t' :: l2).
  { rewrite Ht1. apply list_sort_perm. }
  destruct (first_with_id i (tasks w1)) as (a1 & u & a3 & Hw1 & Ha1 & Hu).
  { exists t'. split; [|exact Hi']. rewrite Hp1.
    apply elem_of_app. right. left. }
  assert (u = t') as ->.
  { assert (Hin : u ∈ l1 ++ t' :: l2).
    { rewrite <- Hp1, Hw1. apply elem_of_app. right. left. }
    apply elem_of_app in Hin as [Hin|Hin].
    - rewrite Forall_forall in Hl1. now destruct (Hl1 u Hin).
    - apply elem_of_cons in Hin as [->|Hin]; [reflexivity|].
      rewrite Forall_forall in Hl2. now destruct (Hl2 u Hin). }
  assert (Hp2 : a1 ++ a3 ≡ₚ l1 ++ l2).
  { rewrite Hw1 in Hp1. rewrite <- !Permutation_middle in Hp1.
    now apply Permutation_cons_inv in Hp1. }
  assert (Ha3 : Forall (fun u => id u <> i) a3).
  { assert (H : Forall (fun u => id u <> i) (a1 ++ a3)).
    { rewrite Hp2. apply Forall_app. now split. }
    apply Forall_app in H. apply H. }
  assert (Hrest : a1 ++ a3 = list_sort (l1 ++ l2)).
  { rewrite <- (filter_all (fun u => id u <> i) (a1 ++ a3))
      by (apply Forall_app; now split).
    rewrite <- (filter_middle_drop _ a1 t' a3 Hni'), <- Hw1, Ht1.
    rewrite list_sort_filter, (filter_middle_drop _ l1 t' l2 Hni').
    rewrite filter_all by (apply Forall_app; now split). reflexivity. }
  assert (Hs1 : sorted (a1 ++ t' :: a3)).
  { rewrite <- Hw1, Ht1. apply list_sort_sorted. }
  apply sorted_middle in Hs1 as [Hbefore Hafter].
  assert (Hn1 : done t = true ->
                filter (fun u => sort_key u = sort_key t) a1 = []).
  { intros Hd. apply filter_none.
    eapply Forall_impl; [exact Hbefore|]. intros x Hx.
    apply (toggled_key_before t x Hd). now rewrite <- Et'. }
  assert (Hn3 : done t = false ->
                filter (fun u => sort_key u = sort_key t) a3 = []).
  { intros Hd. apply filter_none.
    eapply Forall_impl; [exact Hafter|]. intros x Hx.
    apply (toggled_key_after t x Hd). now rewrite <- Et'. }
  rewrite (mark_done_found i a1 t' a3 w1 Hw1 Ha1 Hi'). cbn [tasks].
  assert (Ht : set_done (negb (done t')) t' = t).
  { subst t'. apply set_done_twice. }
  rewrite Ht.
  apply sorted_filters_eq; try apply list_sort_sorted.
  intros k. rewrite !list_sort_filter_key.
  destruct (decide (sort_key t = k)) as [<-|Hk].
  - destruct (done t) eqn:Hd.
    + rewrite filter_app, filter_cons_True by reflexivity.
      rewrite (Hn1 eq_refl), filter_cons_True by reflexivity.
      cbn [app]. f_equal.
      rewrite <- (list_sort_filter_key _ (l1 ++ l2)), <- Hrest.
      now rewrite filter_app, (Hn1 eq_refl).
    + rewrite filter_app, filter_cons_True by reflexivity.
      rewrite (Hn3 eq_refl), (app_assoc l1 l2 [t]).
      rewrite (filter_app _ (l1 ++ l2) [t]).
      rewrite (filter_cons_True _ t []) by reflexivity. f_equal.
      rewrite <- (list_sort_filter_key _ (l1 ++ l2)), <- Hrest.
      now rewrite filter_app, (Hn3 eq_refl), app_nil_r.
  - assert (Hnk : ~ (fun u => sort_key u = k) t) by exact Hk.
    rewrite (filter_middle_drop _ a1 t a3 Hnk), Hrest, list_sort_filter_key.
    destruct (done t).
    + now rewrite filter_cons_False.
    + rewrite (app_assoc l1 l2 [t]), (filter_app _ (l1 ++ l2) [t]).
      rewrite (filter_cons_False _ t []) by exact Hnk.
      now rewrite app_nil_r.
Qed.

(** C6, as the code has it: when exactly one task has the id [i], two
    calls of [mark_done i] leave that task with all its fields, the
    done value among them, as before, and the collection is the stable
    sort of the store with that task taken last if it was pending and
    first if it was done.  So the task stands last among the tasks of
    its key if it was pending and first among them if it was done, and
    the tasks of its key are in their former order exactly when none of
    them stood after it, resp. before it; the other tasks stand in
    their stable sorted order; and a store that was ordered, with the
    task in that place, is as it was. *)
Theorem toggle_twice_restores_done i w l1 t l2 :
  tasks w = l1 ++ t :: l2 ->
  Forall (fun u => id u <> i) l1 -> Forall (fun u => id u <> i) l2 ->
  id t = i ->
  find_task i (tasks (mark_done i (mark_done i w))) = Some t
  /\ tasks (mark_done i (mark_done i w))
     = list_sort (if done t then t :: l1 ++ l2 else l1 ++ l2 ++ [t])
  /\ filter (fun u => sort_key u = sort_key t)
       (tasks (mark_done i (mark_done i w)))
     = (if done t
        then t :: filter (fun u => sort_key u = sort_key t) (l1 ++ l2)
        else filter (fun u => sort_key u = sort_key t) (l1 ++ l2) ++ [t])
  /\ (filter (fun u => sort_key u = sort_key t)
        (tasks (mark_done i (mark_done i w)))
      = filter (fun u => sort_key u = sort_key t) (tasks w)
      <-> filter (fun u => sort_key u = sort_key t)
            (if done t then l1 else l2) = [])
  /\ filter (fun u => id u <> i) (tasks (mark_done i (mark_done i w)))
     = list_sort (l1 ++ l2)
  /\ tasks (mark_done i (mark_done i w)) ≡ₚ tasks w
  /\ sorted (tasks (mark_done i (mark_done i w)))
  /\ (sorted (tasks w) ->
      Forall (fun u => sort_key u <> sort_key t) (if done t then l1 else l2) ->
      tasks (mark_done i (mark_done i w)) = tasks w).
Proof.
  intros Hw Hl1 Hl2 Hi.
  pose proof (toggle_twice_tasks i w l1 t l2 Hw Hl1 Hl2 Hi) as H2.
  assert (Hni : ~ (fun u => id u <> i) t) by (intros Hx; now apply Hx).
  assert (Hperm : tasks (mark_done i (mark_done i w)) ≡ₚ tasks w).
  { rewrite H2, Hw, list_sort_perm. destruct (done t).
    - apply Permutation_middle.
    - rewrite app_assoc, <- Permutation_cons_append.
      apply Permutation_middle. }
  assert (Hkey : filter (fun u => sort_key u = sort_key t)
                   (tasks (mark_done i (mark_done i w)))
                 = (if done t
                    then t :: filter (fun u => sort_key u = sort_key t)
                                (l1 ++ l2)
                    else filter (fun u => sort_key u = sort_key t) (l1 ++ l2)
                         ++ [t])).
  { rewrite H2, list_sort_filter_key. destruct (done t).
    - now rewrite filter_cons_True.
    - rewrite (app_assoc l1 l2 [t]), (filter_app _ (l1 ++ l2) [t]).
      now rewrite (filter_cons_True _ t []). }
  split; [|split; [|split; [|split; [|split; [|split; [|split]]]]]].
  - apply find_task_only; [| |exact Hi].
    + rewrite Hperm, Hw. apply elem_of_app. right. left.
    + intros u Hu Heq. rewrite Hperm, Hw in Hu.
      apply elem_of_app in Hu as [Hu|Hu].
      * rewrite Forall_forall in Hl1. now destruct (Hl1 u Hu).
      * apply elem_of_cons in Hu as [->|Hu]; [reflexivity|].
        rewrite Forall_forall in Hl2. now destruct (Hl2 u Hu).
  - exact H2.
  - exact Hkey.
  - rewrite Hkey, Hw, (filter_app _ l1 (t :: l2)), (filter_app _ l1 l2).
    rewrite (filter_cons_True _ t l2) by reflexivity.
    assert (Hf : forall l, Forall (fun u => id u <> i) l ->
                   Forall (fun u => id u <> i)
                     (filter (fun u => sort_key u = sort_key t) l)).
    { intros l Hl. apply Forall_forall. intros u Hu.
      apply list_elem_of_filter in Hu as [_ Hu].
      rewrite Forall_forall in Hl. now apply Hl. }
    destruct (done t); split.
    + apply (front_eq_middle i t _ _ Hi (Hf l1 Hl1)).
    + now intros ->.
    + apply (end_eq_middle i t _ _ Hi (Hf l2 Hl2)).
    + intros ->. now rewrite app_nil_r.
  - rewrite H2, list_sort_filter. f_equal. destruct (done t).
    + rewrite filter_cons_False by exact Hni.
      apply filter_all, Forall_app. now split.
    + rewrite (app_assoc l1 l2 [t]), (filter_app _ (l1 ++ l2) [t]).
      rewrite (filter_cons_False _ t []) by exact Hni.
      rewrite app_nil_r. apply filter_all, Forall_app. now split.
  - exact Hperm.
  - rewrite H2. apply list_sort_sorted.
  - intros Hs Hk. rewrite H2, Hw.
    apply sorted_filters_eq; [apply list_sort_sorted | now rewrite <- Hw |].
    intros k. rewrite list_sort_filter_key.
    destruct (done t).
    + rewrite (filter_app _ l1 (t :: l2)), !filter_cons, (filter_app _ l1 l2).
      destruct (decide (sort_key t = k)) as [<-|Hne]; [|reflexivity].
      now rewrite (filter_none _ l1) by exact Hk.
    + rewrite (filter_app _ l1 (l2 ++ [t])), (filter_app _ l2 [t]).
      rewrite (filter_app _ l1 (t :: l2)), !filter_cons, filter_nil.
      destruct (decide (sort_key t = k)) as [<-|Hne].
      * now rewrite (filter_none _ l2) by exact Hk.
      * now rewrite app_nil_r.
Qed.

(** Task 1 stood first of the two pending tasks of priority high; after
    two toggles it stands last of them. *)
Lemma toggle_twice_restores_done_witness :
  find_task 1 (tasks (mark_done 1 (mark_done 1 toggle_example)))
  = Some (mkTask 1 "A" "high" false "t1")
  /\ tasks (mark_done 1 (mark_done 1 toggle_example))
     = [mkTask 2 "B" "high" false "t2"; mkTask 1 "A" "high" false "t1";
        mkTask 3 "C" "low" true "t3"].
Proof.
  assert (H : Forall (fun u => id u <> 1)
                [mkTask 2 "B" "high" false "t2"; mkTask 3 "C" "low" true "t3"])
    by (repeat constructor; discriminate).
  pose proof (toggle_twice_restores_done 1 toggle_example []
                (mkTask 1 "A" "high" false "t1")
                [mkTask 2 "B" "high" false "t2"; mkTask 3 "C" "low" true "t3"]
                eq_refl (Forall_nil_2 _) H eq_refl) as (H1 & H2 & _).
  split; [exact H1 | exact H2].
Defined.

(** C6 as stated fails.  With the two pending high-priority tasks 1 and
    2, toggling 1 twice leaves 1 after 2, although it stood before it;
    and with two tasks of id 2, as a delete followed by an add leaves
    them, the second call toggles the other task and both end done. *)
Lemma toggle_twice_loses_position :
  ~ toggle_twice_restores 1
      (mkWorld [mkTask 1 "A" "high" false "t1";
                mkTask 2 "B" "high" false "t2"] "tasks.json" [] ∅)
  /\ ~ toggle_twice_restores 2
        (run [OpAdd "t1" "A" "medium"; OpAdd "t2" "B" "medium";
              OpDelete 1; OpAdd "t3" "C" "medium"] empty_store).
Proof.
  split; intros H.
  - specialize (H (mkTask 1 "A" "high" false "t1") eq_refl).
    destruct H as [_ H]. vm_compute in H. discriminate.
  - specialize (H (mkTask 2 "B" "medium" false "t2") eq_refl).
    destruct H as [H _]. vm_compute in H. discriminate.
Qed.

End Toggle.

Section Uniqueness.

(** C7 as stated fails: add, add, delete(1), add leaves two tasks with
    id 2. *)
Lemma ids_reused_after_delete :
  ~ ids_unique
      (run [OpAdd "t1" "A" "medium"; OpAdd "t2" "B" "medium";
            OpDelete 1; OpAdd "t3" "C" "medium"] empty_store).
Proof.
  unfold ids_unique. vm_compute. intros H.
  apply NoDup_cons in H as [H _]. apply H. left.
Qed.

(** C7, as the code has it: delete, update and toggle keep the ids
    distinct, and so does an add when no task has the id it assigns,
    the number of tasks plus one; in particular the ids stay distinct
    along every run from the empty store that has no delete. *)
Theorem ids_unique_preserved :
  (forall o w,
      ids_unique w ->
      match o with
      | OpAdd _ _ _ => Z.of_nat (length (tasks w)) + 1 ∉ ids w
      | _ => True
      end ->
      ids_unique (step o w))
  /\ (forall ops,
        Forall (fun o => is_delete o = false) ops ->
        ids_unique (run ops empty_store)).
Proof.
  split.
  - intros o w Hw Ho. unfold ids_unique in *.
    destruct o as [now nm p|i|i nm p|i]; simpl.
    + rewrite add_task_ids. destruct (dict_mem p PRIORITY_COLORS);
        [|exact Hw].
      apply NoDup_app. split; [exact Hw|]. split; [|apply NoDup_singleton].
      intros x Hx Hx'. apply list_elem_of_singleton in Hx'. now subst x.
    + eapply sublist_NoDup; [exact Hw | apply delete_task_ids_sublist].
    + now rewrite update_task_ids.
    + now rewrite mark_done_ids.
  - intros ops Hops. apply ids_dense_unique, run_dense; [exact Hops|].
    apply perm_nil.
Qed.

Lemma ids_unique_preserved_witness :
  ids_unique (step (OpAdd "t3" "C" "low")
                (run [OpAdd "t1" "A" "medium"; OpAdd "t2" "B" "high"]
                   empty_store)).
Proof.
  apply (proj1 ids_unique_preserved).
  - apply (proj2 ids_unique_preserved). repeat constructor.
  - vm_compute. intros H. inversion H as [|? ? ? H']; subst.
    inversion H' as [|? ? ? H'']; subst. inversion H''.
Defined.

End Uniqueness.

(** * Facts about strings and the decoder *)

Section Strings.

Lemma append_cons (x : ascii) (a b : string) :
  String x a +:+ b = String x (a +:+ b).
Proof. reflexivity. Qed.

Lemma append_nil_l (b : string) : "" +:+ b = b.
Proof. reflexivity. Qed.

Lemma append_assoc (a b c : string) : (a +:+ b) +:+ c = a +:+ (b +:+ c).
Proof.
  induction a as [|x a IH]; [reflexivity|].
  now rewrite !append_cons, IH.
Qed.

Lemma length_append (a b : string) :
  String.length (a +:+ b) = (String.length a + String.length b)%nat.
Proof.
  induction a as [|x a IH]; [reflexivity|].
  rewrite append_cons. simpl. now rewrite IH.
Qed.

End Strings.

(** Appends pushed to the right, characters in front. *)
Ltac norm_str :=
  repeat (rewrite append_assoc || rewrite append_cons || rewrite append_nil_l).

(** * The decoder is not cut short by its bound *)

Section Fuel.

Lemma skip_ws_length s : (String.length (skip_ws s) <= String.length s)%nat.
Proof.
  induction s as [|c r IH]; [reflexivity|].
  cbn [skip_ws]. destruct (is_ws c); simpl in *; lia.
Qed.

Lemma skip_ws_cons s c r :
  skip_ws s = String c r -> (String.length r < String.length s)%nat.
Proof.
  intros H. pose proof (skip_ws_length s) as L. rewrite H in L.
  simpl in L. lia.
Qed.

Lemma cons_char_ok c e x r :
  cons_char c e = Ok x r -> exists y, e = Ok y r.
Proof. destruct e; try discriminate. intros [= <- <-]. now eexists. Qed.

Lemma scanstring_length_le n :
  forall s x r, (String.length s <= n)%nat ->
    scanstring s = Ok x r -> (String.length r < String.length s)%nat.
Proof.
  induction n as [|n IH]; intros s x r Hn H.
  - destruct s; [discriminate | simpl in Hn; lia].
  - destruct s as [|c s]; [discriminate|].
    cbn [scanstring] in H. simpl in Hn.
    destruct (Ascii.eqb c dquote).
    { injection H as _ <-. simpl. lia. }
    destruct (Ascii.eqb c backslash).
    + destruct s as [|e r1]; [discriminate|].
      destruct (Ascii.eqb e "u").
      * destruct r1 as [|h1 [|h2 [|h3 [|h4 r2]]]]; try discriminate.
        destruct (hex4 h1 h2 h3 h4); [|discriminate].
        destruct (_ <? _)%N; [|discriminate].
        apply cons_char_ok in H as [y H].
        apply IH in H; simpl in *; lia.
      * destruct (unescape e); [|discriminate].
        apply cons_char_ok in H as [y H].
        apply IH in H; simpl in *; lia.
    + destruct (_ <? _)%N; [discriminate|].
      apply cons_char_ok in H as [y H].
      apply IH in H; simpl in *; lia.
Qed.

Lemma scanstring_length s x r :
  scanstring s = Ok x r -> (String.length r < String.length s)%nat.
Proof. apply (scanstring_length_le (String.length s)). lia. Qed.

Lemma cons_char_fuel c e : cons_char c e = NoFuel -> e = NoFuel.
Proof. now destruct e. Qed.

Lemma scanstring_fuel_le n :
  forall s, (String.length s <= n)%nat -> scanstring s <> NoFuel.
Proof.
  induction n as [|n IH]; intros s Hn H.
  - destruct s; [discriminate | simpl in Hn; lia].
  - destruct s as [|c s]; [discriminate|].
    cbn [scanstring] in H. simpl in Hn.
    destruct (Ascii.eqb c dquote); [discriminate|].
    destruct (Ascii.eqb c backslash).
    + destruct s as [|e r1]; [discriminate|].
      destruct (Ascii.eqb e "u").
      * destruct r1 as [|h1 [|h2 [|h3 [|h4 r2]]]]; try discriminate.
        destruct (hex4 h1 h2 h3 h4); [|discriminate].
        destruct (_ <? _)%N; [|discriminate].
        apply cons_char_fuel in H. apply IH in H; [exact H|]. simpl in *; lia.
      * destruct (unescape e); [|discriminate].
        apply cons_char_fuel in H. apply IH in H; [exact H|]. simpl in *; lia.
    + destruct (_ <? _)%N; [discriminate|].
      apply cons_char_fuel in H. apply IH in H; [exact H|]. lia.
Qed.

Lemma scanstring_fuel s : scanstring s <> NoFuel.
Proof. apply (scanstring_fuel_le (String.length s)). lia. Qed.

Lemma scan_digits_length s :
  (String.length (fst (scan_digits s)) + String.length (snd (scan_digits s))
   = String.length s)%nat.
Proof.
  induction s as [|c r IH]; [reflexivity|].
  cbn [scan_digits]. destruct (is_digit c); [|reflexivity].
  destruct (scan_digits r) as [ds rest]. simpl in *. lia.
Qed.

Lemma scan_number_length s v r :
  scan_number s = Ok v r -> (String.length r < String.length s)%nat.
Proof.
  unfold scan_number.
  set (p := match s with
            | EmptyString => (false, s)
            | String c r0 => if Ascii.eqb c "-" then (true, r0) else (false, s)
            end).
  assert (Hp : (String.length (snd p) <= String.length s)%nat).
  { subst p. destruct s as [|c r0]; [reflexivity|].
    destruct (Ascii.eqb c "-"); simpl; lia. }
  destruct p as [neg s1]. cbn [snd] in Hp.
  pose proof (scan_digits_length s1) as L.
  destruct (scan_digits s1) as [ds rest]. cbn [fst snd] in L.
  destruct ds as [|d ds']; [destruct (_ || _); discriminate|].
  destruct (Ascii.eqb d "0").
  - destruct (float_follows _); [discriminate|].
    destruct (_ <? _)%nat; [discriminate|].
    destruct (NilEmpty.uint_of_string _); [|discriminate].
    intros [= _ <-]. rewrite length_append. simpl in L. lia.
  - destruct (float_follows _); [discriminate|].
    destruct (_ <? _)%nat; [discriminate|].
    destruct (NilEmpty.uint_of_string _); [|discriminate].
    intros [= _ <-]. simpl in L. lia.
Qed.

Lemma scan_number_fuel s : scan_number s <> NoFuel.
Proof.
  unfold scan_number.
  destruct (match s with
            | EmptyString => (false, s)
            | String c r0 => if Ascii.eqb c "-" then (true, r0) else (false, s)
            end) as [neg s1].
  destruct (scan_digits s1) as [ds rest].
  destruct ds as [|d ds']; [destruct (_ || _); discriminate|].
  destruct (if Ascii.eqb d "0" then _ else _) as [int_part rest'].
  destruct (float_follows _); [discriminate|].
  destruct (_ <? _)%nat; [discriminate|].
  destruct (NilEmpty.uint_of_string _); discriminate.
Qed.

Lemma strip_prefix_length p :
  forall s r, strip_prefix p s = Some r ->
    (String.length r + String.length p = String.length s)%nat.
Proof.
  induction p as [|a p IH]; intros s r H.
  - injection H as <-. simpl. lia.
  - destruct s as [|b s]; [discriminate|]. cbn [strip_prefix] in H.
    destruct (Ascii.eqb a b); [|discriminate].
    apply IH in H. simpl. lia.
Qed.

(** A scan that gives a value has read at least one character. *)
Lemma scan_length f :
  (forall d s v r, scan_once f d s = Ok v r ->
     (String.length r < String.length s)%nat)
  /\ (forall d s acc v r, object_members f d s acc = Ok v r ->
        (String.length r < String.length s)%nat)
  /\ (forall d s acc v r, array_items f d s acc = Ok v r ->
        (String.length r < String.length s)%nat).
Proof.
  induction f as [|f (IHs & IHo & IHa)]; [repeat split; discriminate|].
  split; [|split].
  - intros d s v r. cbn [scan_once].
    destruct s as [|c s]; [discriminate|].
    destruct (Ascii.eqb c dquote).
    { destruct (scanstring s) as [x rest| | | |] eqn:E; try discriminate.
      intros [= _ <-]. apply scanstring_length in E. simpl. lia. }
    destruct (Ascii.eqb c "{").
    { destruct d as [|d]; [discriminate|].
      destruct (skip_ws s) as [|c' r'] eqn:E; [discriminate|].
      apply skip_ws_cons in E.
      destruct (Ascii.eqb c' dquote).
      - intros H. apply IHo in H. simpl. lia.
      - destruct (Ascii.eqb c' "}"); [|discriminate].
        intros [= _ <-]. simpl. lia. }
    destruct (Ascii.eqb c "[").
    { destruct d as [|d]; [discriminate|].
      destruct (skip_ws s) as [|c' r'] eqn:E.
      - intros H. apply IHa in H. simpl in H. lia.
      - pose proof (skip_ws_cons _ _ _ E) as L.
        destruct (Ascii.eqb c' "]").
        + intros [= _ <-]. simpl. lia.
        + intros H. apply IHa in H. simpl in *. lia. }
    destruct (strip_prefix "null" _) eqn:E1.
    { intros [= _ <-]. apply strip_prefix_length in E1. simpl in *. lia. }
    destruct (strip_prefix "true" _) eqn:E2.
    { intros [= _ <-]. apply strip_prefix_length in E2. simpl in *. lia. }
    destruct (strip_prefix "false" _) eqn:E3.
    { intros [= _ <-]. apply strip_prefix_length in E3. simpl in *. lia. }
    apply scan_number_length.
  - intros d s acc v r. cbn [object_members].
    destruct (scanstring s) as [key s1| | | |] eqn:E; try discriminate.
    apply scanstring_length in E. cbn [bind].
    destruct (skip_ws s1) as [|c s2] eqn:E1; [discriminate|].
    apply skip_ws_cons in E1.
    destruct (Ascii.eqb c ":"); [|discriminate].
    destruct (scan_once f d (skip_ws s2)) as [x s3| | | |] eqn:E2;
      try discriminate.
    apply IHs in E2. pose proof (skip_ws_length s2) as L2. cbn [bind].
    destruct (skip_ws s3) as [|c' s4] eqn:E3; [discriminate|].
    apply skip_ws_cons in E3.
    destruct (Ascii.eqb c' "}").
    { intros [= _ <-]. lia. }
    destruct (Ascii.eqb c' ","); [|discriminate].
    destruct (skip_ws s4) as [|c'' s5] eqn:E4; [discriminate|].
    apply skip_ws_cons in E4.
    destruct (Ascii.eqb c'' dquote); [|discriminate].
    intros H. apply IHo in H. lia.
  - intros d s acc v r. cbn [array_items].
    destruct (scan_once f d s) as [x s1| | | |] eqn:E; try discriminate.
    apply IHs in E. cbn [bind].
    destruct (skip_ws s1) as [|c s2] eqn:E1; [discriminate|].
    apply skip_ws_cons in E1.
    destruct (Ascii.eqb c "]").
    { intros [= _ <-]. lia. }
    destruct (Ascii.eqb c ","); [|discriminate].
    intros H. apply IHa in H. pose proof (skip_ws_length s2). lia.
Qed.

(** Two calls for a character are enough. *)
Lemma scan_fuel f :
  (forall d s, (2 * String.length s + 1 <= f)%nat -> scan_once f d s <> NoFuel)
  /\ (forall d s acc, (2 * String.length s + 2 <= f)%nat ->
        object_members f d s acc <> NoFuel)
  /\ (forall d s acc, (2 * String.length s + 2 <= f)%nat ->
        array_items f d s acc <> NoFuel).
Proof.
  induction f as [|f (IHs & IHo & IHa)]; [repeat split; intros; lia|].
  destruct (scan_length f) as (Ls & Lo & La).
  split; [|split].
  - intros d s Hf. cbn [scan_once].
    destruct s as [|c s]; [discriminate|]. simpl in Hf.
    destruct (Ascii.eqb c dquote).
    { pose proof (scanstring_fuel s).
      destruct (scanstring s); try discriminate. contradiction. }
    destruct (Ascii.eqb c "{").
    { destruct d as [|d]; [discriminate|].
      destruct (skip_ws s) as [|c' r'] eqn:E; [discriminate|].
      apply skip_ws_cons in E.
      destruct (Ascii.eqb c' dquote).
      - apply IHo. lia.
      - destruct (Ascii.eqb c' "}"); discriminate. }
    destruct (Ascii.eqb c "[").
    { destruct d as [|d]; [discriminate|].
      destruct (skip_ws s) as [|c' r'] eqn:E.
      - apply IHa. simpl. lia.
      - pose proof (skip_ws_cons _ _ _ E) as L.
        destruct (Ascii.eqb c' "]"); [discriminate|].
        apply IHa. simpl. lia. }
    destruct (strip_prefix "null" _); [discriminate|].
    destruct (strip_prefix "true" _); [discriminate|].
    destruct (strip_prefix "false" _); [discriminate|].
    apply scan_number_fuel.
  - intros d s acc Hf. cbn [object_members].
    pose proof (scanstring_fuel s) as Hn.
    destruct (scanstring s) as [key s1| | | |] eqn:E; try discriminate;
      [|contradiction].
    apply scanstring_length in E. cbn [bind].
    destruct (skip_ws s1) as [|c s2] eqn:E1; [discriminate|].
    apply skip_ws_cons in E1.
    destruct (Ascii.eqb c ":"); [|discriminate].
    pose proof (skip_ws_length s2) as L2.
    assert (Hx : scan_once f d (skip_ws s2) <> NoFuel) by (apply IHs; lia).
    destruct (scan_once f d (skip_ws s2)) as [x s3| | | |] eqn:E2;
      try discriminate; [|contradiction].
    apply Ls in E2. cbn [bind].
    destruct (skip_ws s3) as [|c' s4] eqn:E3; [discriminate|].
    apply skip_ws_cons in E3.
    destruct (Ascii.eqb c' "}"); [discriminate|].
    destruct (Ascii.eqb c' ","); [|discriminate].
    destruct (skip_ws s4) as [|c'' s5] eqn:E4; [discriminate|].
    apply skip_ws_cons in E4.
    destruct (Ascii.eqb c'' dquote); [|discriminate].
    apply IHo. lia.
  - intros d s acc Hf. cbn [array_items].
    assert (Hx : scan_once f d s <> NoFuel) by (apply IHs; lia).
    destruct (scan_once f d s) as [x s1| | | |] eqn:E;
      try discriminate; [|contradiction].
    apply Ls in E. cbn [bind].
    destruct (skip_ws s1) as [|c s2] eqn:E1; [discriminate|].
    apply skip_ws_cons in E1.
    destruct (Ascii.eqb c "]"); [discriminate|].
    destruct (Ascii.eqb c ","); [|discriminate].
    apply IHa. pose proof (skip_ws_length s2). lia.
Qed.

(** [loads] is never cut short by its bound. *)
Lemma loads_fuel s : loads s <> NoFuel.
Proof.
  unfold loads.
  pose proof (proj1 (scan_fuel (2 * String.length s + 1)) max_depth (skip_ws s))
    as H.
  pose proof (skip_ws_length s) as L.
  destruct (scan_once _ _ _) as [x rest| | | |]; try discriminate.
  - cbn [bind]. destruct (skip_ws rest); discriminate.
  - exfalso. apply H; [lia | reflexivity].
Qed.

End Fuel.

(** * What the encoder writes, the decoder reads back *)

Section Decode.

Lemma scanstring_escape_char c tail :
  scanstring (escape_char c +:+ tail) = cons_char c (scanstring tail).
Proof.
  destruct c as [[] [] [] [] [] [] [] []]; reflexivity.
Qed.

Lemma scanstring_escape_chars s rest :
  scanstring (escape_chars s +:+ String dquote rest) = Ok s rest.
Proof.
  induction s as [|c r IH]; cbn [escape_chars].
  - reflexivity.
  - now rewrite append_assoc, scanstring_escape_char, IH.
Qed.

Lemma scan_digits_stop rest :
  starts_with_digit rest = false -> scan_digits rest = ("", rest).
Proof.
  destruct rest as [|c r]; simpl; [reflexivity|]. now intros ->.
Qed.

Lemma scan_digits_uint d rest :
  starts_with_digit rest = false ->
  scan_digits (NilEmpty.string_of_uint d +:+ rest)
  = (NilEmpty.string_of_uint d, rest).
Proof.
  intros H. induction d; cbn [NilEmpty.string_of_uint];
    rewrite ?append_cons, ?append_nil_l;
    try (cbn [scan_digits]; rewrite IHd; reflexivity).
  now apply scan_digits_stop.
Qed.

Lemma to_uint_head p :
  exists c r, NilEmpty.string_of_uint (Pos.to_uint p) = String c r
              /\ is_digit c = true /\ Ascii.eqb c "0" = false.
Proof.
  pose proof (Unsigned.to_of (Pos.to_uint p)) as H.
  rewrite Unsigned.of_to in H. simpl in H.
  pose proof (Unsigned.to_uint_nonzero p) as Hz.
  assert (Hn : Decimal.nzhead (Pos.to_uint p) = Pos.to_uint p).
  { unfold Decimal.unorm in H.
    destruct (Decimal.nzhead (Pos.to_uint p)) eqn:E; try (symmetry; exact H).
    exfalso. apply Hz. exact H. }
  pose proof (Unsigned.to_uint_nonnil p) as Hnil.
  destruct (Pos.to_uint p) as [|d|d|d|d|d|d|d|d|d|d] eqn:E;
    try (eexists _, _; split; [reflexivity | split; reflexivity]).
  - contradiction.
  - exfalso. eapply DecimalFacts.nzhead_nonzero. exact Hn.
Qed.

Lemma scan_number_uint (neg : bool) p rest :
  follower rest ->
  (String.length (NilEmpty.string_of_uint (Pos.to_uint p))
   <= int_max_str_digits)%nat ->
  scan_number ((if neg then "-" else "")
               +:+ NilEmpty.string_of_uint (Pos.to_uint p) +:+ rest)
  = Ok (JInt (if neg then Z.neg p else Z.pos p)) rest.
Proof.
  intros [Hd Hf] Hl. apply Nat.ltb_ge in Hl.
  destruct (to_uint_head p) as (c & r & E & Hc & H0).
  assert (Hm : Ascii.eqb c "-" = false).
  { destruct c as [[] [] [] [] [] [] [] []]; try reflexivity; discriminate. }
  pose proof (scan_digits_uint (Pos.to_uint p) rest Hd) as Hs.
  rewrite E in Hs, Hl.
  assert (Hu : NilEmpty.uint_of_string (String c r) = Some (Pos.to_uint p)).
  { rewrite <- E. apply NilEmpty.usu. }
  assert (Hz : Z.of_uint (Pos.to_uint p) = Z.pos p).
  { unfold Z.of_uint. now rewrite Unsigned.of_to. }
  rewrite E. unfold scan_number.
  destruct neg; norm_str.
  - cbn [Ascii.eqb Bool.eqb]. rewrite <- append_cons, Hs.
    rewrite H0, Hf, Hl, Hu, Hz. reflexivity.
  - rewrite Hm. rewrite <- append_cons, Hs.
    rewrite H0, Hf, Hl, Hu, Hz. reflexivity.
Qed.

Lemma nilzero_string_of_uint p :
  NilZero.string_of_uint (Pos.to_uint p)
  = NilEmpty.string_of_uint (Pos.to_uint p).
Proof.
  pose proof (Unsigned.to_uint_nonnil p) as H.
  destruct (Pos.to_uint p); [contradiction | reflexivity ..].
Qed.

Lemma int_ok_pos p :
  int_ok (Z.pos p) = true ->
  (String.length (NilEmpty.string_of_uint (Pos.to_uint p))
   <= int_max_str_digits)%nat.
Proof.
  unfold int_ok, str_of_int.
  change (NilZero.string_of_int (Z.to_int (Z.abs (Z.pos p))))
    with (NilZero.string_of_uint (Pos.to_uint p)).
  rewrite nilzero_string_of_uint. apply Nat.leb_le.
Qed.

Lemma scan_number_int z rest :
  int_ok z = true ->
  follower rest -> scan_number (str_of_int z +:+ rest) = Ok (JInt z) rest.
Proof.
  intros Hz Hf. destruct z as [|p|p]; unfold str_of_int; cbn [Z.to_int].
  - destruct Hf as [Hd Hf]. unfold scan_number.
    change (NilZero.string_of_int (Decimal.Pos Decimal.zero)) with "0"%string.
    norm_str. cbn [Ascii.eqb Bool.eqb scan_digits is_digit].
    change (is_digit "0") with true. cbn iota.
    rewrite (scan_digits_stop rest Hd). cbn iota.
    change (Ascii.eqb "0" "0") with true. cbn iota. norm_str.
    rewrite Hf. reflexivity.
  - cbn [NilZero.string_of_int]. rewrite nilzero_string_of_uint.
    apply (scan_number_uint false p rest Hf), int_ok_pos, Hz.
  - cbn [NilZero.string_of_int]. rewrite nilzero_string_of_uint.
    rewrite append_cons.
    apply (scan_number_uint true p rest Hf), int_ok_pos, Hz.
Qed.

Lemma str_of_int_head z :
  exists c r, str_of_int z = String c r
              /\ (is_digit c = true \/ c = "-"%char).
Proof.
  destruct z as [|p|p]; unfold str_of_int; cbn [Z.to_int NilZero.string_of_int].
  - exists "0"%char, ""%string. split; [reflexivity | now left].
  - rewrite nilzero_string_of_uint.
    destruct (to_uint_head p) as (c & r & E & Hc & _).
    exists c, r. split; [exact E | now left].
  - eexists _, _. split; [reflexivity | now right].
Qed.

Lemma scan_once_number f d c s :
  is_digit c = true \/ c = "-"%char ->
  scan_once (S f) d (String c s) = scan_number (String c s).
Proof.
  destruct c as [[] [] [] [] [] [] [] []]; intros [H|H];
    try discriminate; reflexivity.
Qed.

Lemma skip_ws_number c s :
  is_digit c = true \/ c = "-"%char ->
  skip_ws (String c s) = String c s.
Proof.
  destruct c as [[] [] [] [] [] [] [] []]; intros [H|H];
    try discriminate; reflexivity.
Qed.

Lemma decodes_int f d z :
  int_ok z = true -> decodes (S f) d (str_of_int z) (JInt z).
Proof.
  intros Hz rest Hf. destruct (str_of_int_head z) as (c & r & E & Hc).
  pose proof (scan_number_int z rest Hz Hf) as H. rewrite E in *.
  rewrite append_cons in *. split.
  - now apply skip_ws_number.
  - now rewrite scan_once_number.
Qed.

Lemma decodes_str f d s :
  decodes (S f) d (encode_basestring_ascii s) (JStr s).
Proof.
  intros rest _. unfold encode_basestring_ascii. norm_str. split.
  - reflexivity.
  - cbn [scan_once]. change (Ascii.eqb dquote dquote) with true. cbn iota.
    now rewrite scanstring_escape_chars.
Qed.

Lemma decodes_bool f d (b : bool) :
  decodes (S f) d (if b then "true" else "false") (JBool b).
Proof. intros rest _. destruct b; split; reflexivity. Qed.

Lemma skip_ws_spaces n s : skip_ws (spaces n +:+ s) = skip_ws s.
Proof. induction n as [|n IH]; [reflexivity|]. exact IH. Qed.

Lemma skip_ws_newline_indent i l s :
  skip_ws (newline_indent i l +:+ s) = skip_ws s.
Proof.
  unfold newline_indent. rewrite append_assoc.
  change (skip_ws (spaces (i * l) +:+ s) = skip_ws s).
  apply skip_ws_spaces.
Qed.

Lemma follower_newline_indent i l s : follower (newline_indent i l +:+ s).
Proof. split; reflexivity. Qed.

Lemma follower_cons c s :
  is_digit c = false -> Ascii.eqb c "." = false ->
  Ascii.eqb c "e" = false -> Ascii.eqb c "E" = false ->
  follower (String c s).
Proof.
  intros H1 H2 H3 H4. split; [exact H1|].
  cbn [float_follows]. now rewrite H2, H3, H4.
Qed.

(** A member that is followed by another one. *)
Lemma object_members_more f d k x txt i l more acc :
  decodes f d txt x ->
  object_members (S f) d
    (escape_chars k +:+ String dquote (String ":" (String " "
       (txt +:+ String "," (newline_indent i l +:+ String dquote more)))))
    acc
  = object_members f d more (acc ++ [(k, x)]).
Proof.
  intros Hd.
  destruct (Hd (String "," (newline_indent i l +:+ String dquote more)))
    as [Hws Hx]; [now apply follower_cons|].
  cbn [object_members]. rewrite scanstring_escape_chars. cbn [bind].
  change (skip_ws (String ":" ?s)) with (String ":" s). cbn iota.
  change (Ascii.eqb ":" ":") with true. cbn iota.
  change (skip_ws (String " " ?s)) with (skip_ws s).
  rewrite Hws, Hx. cbn [bind].
  change (skip_ws (String "," ?s)) with (String "," s). cbn iota.
  change (Ascii.eqb "," "}") with false.
  change (Ascii.eqb "," ",") with true. cbn iota.
  rewrite skip_ws_newline_indent.
  change (skip_ws (String dquote more)) with (String dquote more).
  cbn iota. change (Ascii.eqb dquote dquote) with true. reflexivity.
Qed.

(** The last member. *)
Lemma object_members_last f d k x txt i l rest acc :
  decodes f d txt x ->
  object_members (S f) d
    (escape_chars k +:+ String dquote (String ":" (String " "
       (txt +:+ newline_indent i l +:+ String "}" rest))))
    acc
  = Ok (JObj (acc ++ [(k, x)])) rest.
Proof.
  intros Hd.
  destruct (Hd (newline_indent i l +:+ String "}" rest)) as [Hws Hx];
    [apply follower_newline_indent|].
  cbn [object_members]. rewrite scanstring_escape_chars. cbn [bind].
  change (skip_ws (String ":" ?s)) with (String ":" s). cbn iota.
  change (Ascii.eqb ":" ":") with true. cbn iota.
  change (skip_ws (String " " ?s)) with (skip_ws s).
  rewrite Hws, Hx. cbn [bind].
  rewrite skip_ws_newline_indent.
  change (skip_ws (String "}" rest)) with (String "}" rest). cbn iota.
  change (Ascii.eqb "}" "}") with true. reflexivity.
Qed.

Lemma scan_once_object f d i l more :
  scan_once (S f) (S d)
    (String "{" (newline_indent i l +:+ String dquote more))
  = object_members f d more [].
Proof.
  cbn [scan_once]. change (Ascii.eqb "{" dquote) with false.
  change (Ascii.eqb "{" "{") with true. cbn iota.
  rewrite skip_ws_newline_indent.
  change (skip_ws (String dquote more)) with (String dquote more).
  cbn iota. change (Ascii.eqb dquote dquote) with true. reflexivity.
Qed.

Lemma decodes_task f d t :
  int_ok (id t) = true ->
  decodes (7 + f) (S d) (encode 2 1 (task_to_value t)) (task_to_value t).
Proof.
  intros Hid rest _. unfold task_to_value.
  cbn [encode map join].
  repeat match goal with
  | |- context [encode_basestring_ascii (String ?c ?k)] =>
      change (encode_basestring_ascii (String c k))
        with (String dquote (escape_chars (String c k) +:+ String dquote ""))
  end.
  norm_str. split; [reflexivity|].
  cbn [Nat.add]. rewrite scan_once_object.
  rewrite (object_members_more _ _ "id" (JInt (id t)))
    by (apply decodes_int, Hid).
  rewrite (object_members_more _ _ "name" (JStr (name t)))
    by apply decodes_str.
  rewrite (object_members_more _ _ "priority" (JStr (priority t)))
    by apply decodes_str.
  rewrite (object_members_more _ _ "done" (JBool (done t)))
    by apply decodes_bool.
  rewrite (object_members_last _ _ "created_at" (JStr (created_at t)))
    by apply decodes_str.
  reflexivity.
Qed.

Lemma encode_task_head t :
  exists s, encode 2 1 (task_to_value t) = String "{" s.
Proof. eexists. unfold task_to_value. cbn [encode]. now norm_str. Qed.

(** The text of a non-empty list of tasks starts with an item. *)
Lemma join_tasks_head t r tail :
  follower tail ->
  exists s,
    join item_sep (map (encode 2 1) (map task_to_value (t :: r))) +:+ tail
    = String "{" s
    /\ skip_ws (String "{" s) = String "{" s.
Proof.
  intros _. destruct (encode_task_head t) as [s Hs].
  destruct r as [|t' r]; cbn [map join]; rewrite Hs; norm_str;
    eexists; split; reflexivity.
Qed.

Lemma array_items_tasks r :
  forall t f d acc rest,
    ids_within_limit (t :: r) = true ->
    array_items (length r + 8 + f) (S d)
      (join item_sep (map (encode 2 1) (map task_to_value (t :: r)))
       +:+ newline_indent 2 0 +:+ String "]" rest) acc
    = Ok (JArr (acc ++ map task_to_value (t :: r))) rest.
Proof.
  induction r as [|t' r IH]; intros t f d acc rest Hok;
    cbn [ids_within_limit forallb] in Hok;
    apply andb_true_iff in Hok as [Hid Hok].
  - change (length [] + 8 + f)%nat with (S (7 + f)).
    cbn [map join array_items].
    destruct (decodes_task f d t Hid (newline_indent 2 0 +:+ String "]" rest))
      as [_ Hx]; [apply follower_newline_indent|].
    rewrite Hx. cbn [bind]. rewrite skip_ws_newline_indent.
    reflexivity.
  - change (map (encode 2 1) (map task_to_value (t :: t' :: r)))
      with (encode 2 1 (task_to_value t)
            :: map (encode 2 1) (map task_to_value (t' :: r))).
    change (join item_sep (?x :: map (encode 2 1) (map task_to_value (t' :: r))))
      with (x +:+ item_sep
            +:+ join item_sep (map (encode 2 1) (map task_to_value (t' :: r)))).
    unfold item_sep at 1. norm_str.
    change (length (t' :: r) + 8 + f)%nat with (S (length r + 8 + f)).
    cbn [array_items].
    replace (length r + 8 + f)%nat with (7 + (length r + 1 + f))%nat at 1
      by lia.
    match goal with
    | |- context [scan_once _ _ (_ +:+ ?tail)] =>
        destruct (decodes_task (length r + 1 + f) d t Hid tail) as [_ Hx];
          [now apply follower_cons|]
    end.
    rewrite Hx. cbn [bind].
    change (skip_ws (String "," ?s)) with (String "," s). cbn iota.
    change (Ascii.eqb "," "]") with false.
    change (Ascii.eqb "," ",") with true. cbn iota.
    rewrite skip_ws_newline_indent.
    destruct (join_tasks_head t' r (newline_indent 2 0 +:+ String "]" rest))
      as (s & Hs & Hws); [apply follower_newline_indent|].
    rewrite Hs, Hws, <- Hs, IH, <- app_assoc by exact Hok. reflexivity.
Qed.

Lemma scan_once_array f d i l c s :
  skip_ws (String c s) = String c s -> Ascii.eqb c "]" = false ->
  scan_once (S f) (S d) (String "[" (newline_indent i l +:+ String c s))
  = array_items f d (String c s) [].
Proof.
  intros Hws Hc. cbn [scan_once].
  change (Ascii.eqb "[" dquote) with false.
  change (Ascii.eqb "[" "{") with false.
  change (Ascii.eqb "[" "[") with true. cbn iota.
  now rewrite skip_ws_newline_indent, Hws, Hc.
Qed.

Lemma join_length_ge c sep l :
  Forall (fun x => (c <= String.length x)%nat) l ->
  (c * length l <= String.length (join sep l))%nat.
Proof.
  induction 1 as [|x r Hx Hr IH]; [simpl; lia|].
  destruct r as [|y r].
  - simpl in *. lia.
  - change (join sep (x :: y :: r)) with (x +:+ sep +:+ join sep (y :: r)).
    rewrite !length_append. simpl length in *. lia.
Qed.

Lemma encode_task_length t :
  (2 <= String.length (encode 2 1 (task_to_value t)))%nat.
Proof.
  unfold task_to_value. cbn [encode]. unfold newline_indent at 1.
  norm_str. unfold nl, chr. norm_str. simpl. lia.
Qed.

(** What [dumps] writes for a list of tasks, [loads] reads back. *)
Lemma loads_dumps_tasks (l : list task) :
  ids_within_limit l = true ->
  loads (dumps 2 (JArr (map task_to_value l)))
  = Ok (JArr (map task_to_value l)) "".
Proof.
  intros Hok. destruct l as [|t r]; [reflexivity|].
  unfold loads, dumps.
  change (encode 2 0 (JArr (map task_to_value (t :: r))))
    with ("[" +:+ newline_indent 2 1
          +:+ join item_sep (map (encode 2 1) (map task_to_value (t :: r)))
          +:+ newline_indent 2 0 +:+ "]").
  norm_str.
  change (skip_ws (String "[" ?s)) with (String "[" s).
  assert (Hlen : (length r + 8
                  <= String.length
                       (join item_sep
                          (map (encode 2 1) (map task_to_value (t :: r)))
                        +:+ newline_indent 2 0 +:+ "]") + 4)%nat).
  { rewrite length_append.
    pose proof (join_length_ge 2 item_sep
                  (map (encode 2 1) (map task_to_value (t :: r)))) as H.
    rewrite !length_map in H. simpl length in H.
    assert (H' : (2 * S (length r)
                  <= String.length
                       (join item_sep
                          (map (encode 2 1) (map task_to_value (t :: r)))))%nat).
    { apply H. apply Forall_forall. intros x Hx.
      apply list_elem_of_In, in_map_iff in Hx as (v & <- & Hv).
      apply in_map_iff in Hv as (u & <- & _). apply encode_task_length. }
    change (String.length (newline_indent 2 0 +:+ "]")) with 2%nat. lia. }
  remember (join item_sep (map (encode 2 1) (map task_to_value (t :: r)))
            +:+ newline_indent 2 0 +:+ "]") as body eqn:Eb.
  destruct (join_tasks_head t r (newline_indent 2 0 +:+ "]")) as (s & Hs & Hws);
    [apply follower_newline_indent|].
  rewrite <- Eb in Hs.
  cbn [String.length].
  rewrite length_append.
  change (String.length (newline_indent 2 1)) with 3%nat.
  remember (2 * S (3 + String.length body))%nat as fuel eqn:Ef.
  rewrite Nat.add_1_r.
  change max_depth with (S (S 98)).
  rewrite Hs, scan_once_array by (exact Hws || reflexivity).
  rewrite <- Hs.
  replace fuel with (length r + 8 + (fuel - (length r + 8)))%nat by lia.
  rewrite Eb.
  rewrite array_items_tasks by exact Hok. reflexivity.
Qed.

End Decode.

Section Persistence.

(** With no tasks file, the constructor gives the empty store. *)
Lemma TodoList_no_file : TodoList ∅ = Some empty_store.
Proof. reflexivity. Qed.

Lemma tasks_of_values_tasks l :
  tasks_of_values (map task_to_value l) = Some l.
Proof.
  induction l as [|t r IH]; [reflexivity|].
  cbn [map tasks_of_values]. rewrite IH. now destruct t.
Qed.

(** The text of an integer given by its numeral. *)
Lemma str_of_int_of_uint d :
  Decimal.unorm d = d -> str_of_int (Z.of_uint d) = NilZero.string_of_uint d.
Proof.
  intros Hd. unfold str_of_int.
  change (Z.of_uint d) with (Z.of_int (Decimal.Pos d)).
  rewrite DecimalZ.to_of. cbn [Decimal.norm]. now rewrite Hd.
Qed.


Lemma int_ok_of_uint d :
  Decimal.unorm d = d ->
  int_ok (Z.of_uint d)
  = (String.length (NilZero.string_of_uint d) <=? int_max_str_digits)%nat.
Proof.
  intros Hd. unfold int_ok. rewrite Z.abs_eq.
  - now rewrite str_of_int_of_uint.
  - unfold Z.of_uint. apply N2Z.is_nonneg.
Qed.

(** The limit lies between the two long ids. *)
Lemma int_ok_longest_id : int_ok longest_id = true.
Proof. unfold longest_id. now rewrite int_ok_of_uint. Qed.



Lemma long_id_digits :
  String.length (str_of_int longest_id) = 4300%nat
  /\ String.length (str_of_int long_id) = 4301%nat.
Proof.
  unfold longest_id, long_id.
  rewrite !str_of_int_of_uint by reflexivity. split; reflexivity.
Qed.

(** The chunks of one task: all of them, or those before the id. *)
Lemma emit_task t :
  emit 2 1 (task_to_value t)
  = if int_ok (id t) then (encode 2 1 (task_to_value t), true)
    else (task_cut, false).
Proof.
  unfold task_to_value, task_cut. cbn [emit emit_members encode map join].
  destruct (int_ok (id t)); norm_str; reflexivity.
Qed.

(** [json.dump] comes to its end exactly when no id is beyond the
    limit. *)
Lemma emit_items_snd l :
  forall buf,
    snd (emit_items (emit 2 1) item_sep list_close buf (map task_to_value l))
    = ids_within_limit l.
Proof.
  induction l as [|t r IH]; intros buf; [reflexivity|].
  cbn [map emit_items ids_within_limit forallb]. rewrite emit_task.
  destruct (int_ok (id t)); [|reflexivity].
  specialize (IH item_sep).
  destruct (emit_items _ _ _ _ _) as [t' ok']. exact IH.
Qed.

Lemma emit_items_tasks r :
  forall t buf,
    ids_within_limit (t :: r) = true ->
    emit_items (emit 2 1) item_sep list_close buf (map task_to_value (t :: r))
    = (buf +:+ join item_sep (map (encode 2 1) (map task_to_value (t :: r)))
       +:+ list_close, true).
Proof.
  induction r as [|t' r IH]; intros t buf Hok;
    cbn [ids_within_limit forallb] in Hok;
    apply andb_true_iff in Hok as [Hid Hok].
  - cbn [map emit_items join]. rewrite emit_task, Hid. reflexivity.
  - change (map task_to_value (t :: t' :: r))
      with (task_to_value t :: map task_to_value (t' :: r)).
    cbn [emit_items]. rewrite emit_task, Hid, (IH t' item_sep Hok).
    change (map (encode 2 1) (task_to_value t :: map task_to_value (t' :: r)))
      with (encode 2 1 (task_to_value t)
            :: map (encode 2 1) (map task_to_value (t' :: r))).
    change (join item_sep (?x :: map (encode 2 1) (map task_to_value (t' :: r))))
      with (x +:+ item_sep
            +:+ join item_sep (map (encode 2 1) (map task_to_value (t' :: r)))).
    now rewrite !append_assoc.
Qed.

Lemma dump_completes_ids w : dump_completes w = ids_within_limit (tasks w).
Proof.
  unfold dump_completes, dump, tasks_to_value.
  destruct (tasks w) as [|t r]; [reflexivity|].
  apply (emit_items_snd (t :: r)).
Qed.

Lemma dump_tasks l :
  ids_within_limit l = true ->
  dump 2 (tasks_to_value l) = (dumps 2 (tasks_to_value l), true).
Proof.
  intros Hok. destruct l as [|t r]; [reflexivity|].
  unfold dump, dumps, tasks_to_value.
  change (emit 2 0 (JArr (map task_to_value (t :: r))))
    with (emit_items (emit 2 1) item_sep list_close
            ("[" +:+ newline_indent 2 1) (map task_to_value (t :: r))).
  rewrite (emit_items_tasks r t _ Hok).
  change (encode 2 0 (JArr (map task_to_value (t :: r))))
    with ("[" +:+ newline_indent 2 1
          +:+ join item_sep (map (encode 2 1) (map task_to_value (t :: r)))
          +:+ newline_indent 2 0 +:+ "]").
  unfold list_close. now rewrite !append_assoc.
Qed.

(** With the ids within the limit, [save_tasks] writes the whole text
    and reports it. *)
Lemma save_tasks_completes w :
  ids_within_limit (tasks w) = true ->
  save_tasks w
  = print ("Tasks saved to " +:+ filename w)
      (write_file (filename w) (dumps 2 (tasks_to_value (tasks w))) w).
Proof. intros Hok. unfold save_tasks. now rewrite (dump_tasks _ Hok). Qed.

(** What [load_tasks] makes of the text [save_tasks] wrote, whatever
    the store holds when it is called. *)
Lemma load_saved w v :
  ids_within_limit (tasks w) = true ->
  files v !! filename v = files (save_tasks w) !! filename w ->
  load_tasks v = Some (set_tasks (tasks w) v).
Proof.
  intros Hok Hf. unfold load_tasks. rewrite Hf.
  rewrite (save_tasks_completes w Hok). cbn [files filename print write_file].
  rewrite lookup_insert_eq. unfold tasks_to_value.
  rewrite (loads_dumps_tasks _ Hok). cbn [tasks_of_value].
  now rewrite tasks_of_values_tasks.
Qed.



(** A task with an id of 4300 digits, the longest the limit allows,
    comes back as well. *)
Lemma save_load_at_limit v :
  files v !! filename v
  = files (save_tasks longest_id_store) !! filename longest_id_store ->
  load_tasks v = Some (set_tasks (tasks longest_id_store) v).
Proof.
  apply load_saved. unfold longest_id_store.
  cbn [tasks ids_within_limit forallb id]. now rewrite int_ok_longest_id.
Qed.




End Persistence.


(** * More about the store *)

Section StoreMore.

(** X1: when no task has the id, [update_task] reports it once, after
    the scan, and changes neither the tasks nor the files, whatever the
    name and the priority given. *)
Theorem update_task_missing_reports_once i nm p w :
  Forall (fun u => id u <> i) (tasks w) ->
  update_task i nm p w
  = mkWorld (tasks w) (filename w)
      (stdout w ++ ["No task found with ID " +:+ str_of_int i]) (files w).
Proof. intros H. unfold update_task. now rewrite update_loop_missing. Qed.

Lemma update_task_missing_witness :
  update_task 7 (Some "X") (Some "bogus")
    (mkWorld [mkTask 1 "A" "low" false "t1"] "tasks.json" [] ∅)
  = mkWorld [mkTask 1 "A" "low" false "t1"] "tasks.json"
      ["No task found with ID 7"] ∅.
Proof.
  apply (update_task_missing_reports_once 7 (Some "X") (Some "bogus")
           (mkWorld [mkTask 1 "A" "low" false "t1"] "tasks.json" [] ∅)).
  constructor; [simpl; lia | constructor].
Defined.

(** X2: when no task has the id, [mark_done] reports it once, after the
    scan, and changes neither the tasks nor the files. *)
Theorem mark_done_missing_reports_once i w :
  Forall (fun u => id u <> i) (tasks w) ->
  mark_done i w
  = mkWorld (tasks w) (filename w)
      (stdout w ++ ["No task found with ID " +:+ str_of_int i]) (files w).
Proof. intros H. unfold mark_done. now rewrite mark_loop_missing. Qed.

Lemma mark_done_missing_witness :
  mark_done 7 (mkWorld [mkTask 1 "A" "low" false "t1"] "tasks.json" [] ∅)
  = mkWorld [mkTask 1 "A" "low" false "t1"] "tasks.json"
      ["No task found with ID 7"] ∅.
Proof.
  apply (mark_done_missing_reports_once 7
           (mkWorld [mkTask 1 "A" "low" false "t1"] "tasks.json" [] ∅)).
  constructor; [simpl; lia | constructor].
Defined.

(** X3: [delete_task] removes the first task that has the id and no
    other; the tasks left keep their order, the files are untouched, and
    the deletion is reported with the task's name, after one not-found
    report for every task that stands before it. *)
Theorem delete_task_removes_first i l1 t l2 w :
  tasks w = l1 ++ t :: l2 ->
  Forall (fun u => id u <> i) l1 -> id t = i ->
  delete_task i w
  = mkWorld (l1 ++ l2) (filename w)
      (stdout w ++ replicate (length l1) ("No task found with ID " +:+ str_of_int i)
         ++ ["Deleted task: " +:+ name t])
      (files w).
Proof.
  intros Hw H Ht. unfold delete_task. rewrite Hw at 1.
  rewrite delete_loop_found by assumption. cbn zeta. unfold pop.
  rewrite Hw, Nat.add_0_l, list_lookup_middle by reflexivity.
  rewrite delete_middle. unfold print, set_tasks. cbn.
  now rewrite <- app_assoc.
Qed.

Lemma delete_task_removes_first_witness :
  delete_task 2
    (mkWorld [mkTask 1 "A" "low" false "t1"; mkTask 2 "B" "low" false "t2";
              mkTask 2 "C" "low" false "t3"] "tasks.json" [] ∅)
  = mkWorld [mkTask 1 "A" "low" false "t1"; mkTask 2 "C" "low" false "t3"]
      "tasks.json" ["No task found with ID 2"; "Deleted task: B"] ∅.
Proof.
  apply (delete_task_removes_first 2 [mkTask 1 "A" "low" false "t1"]
           (mkTask 2 "B" "low" false "t2") [mkTask 2 "C" "low" false "t3"]
           (mkWorld [mkTask 1 "A" "low" false "t1";
                     mkTask 2 "B" "low" false "t2";
                     mkTask 2 "C" "low" false "t3"] "tasks.json" [] ∅)).
  - reflexivity.
  - constructor; [simpl; lia | constructor].
  - reflexivity.
Defined.

(** X4: [mark_done] flips the done field of the first task that has the
    id and of no other, sorts the collection and reports the new state:
    "completed" when the task is now done, "pending" when it is not. *)
Theorem mark_done_flips_first i l1 t l2 w :
  tasks w = l1 ++ t :: l2 ->
  Forall (fun u => id u <> i) l1 -> id t = i ->
  mark_done i w
  = mkWorld
      (list_sort
         (l1 ++ mkTask (id t) (name t) (priority t) (negb (done t))
                  (created_at t) :: l2))
      (filename w)
      (stdout w ++ ["Marked task " +:+ str_of_int i +:+ " as "
                    +:+ (if done t then "pending" else "completed")])
      (files w).
Proof.
  intros Hw Hl1 Ht. rewrite (mark_done_found i l1 t l2 w Hw Hl1 Ht).
  now destruct (done t).
Qed.

Lemma mark_done_flips_first_witness :
  mark_done 1
    (mkWorld [mkTask 1 "A" "high" false "t1"; mkTask 2 "B" "low" false "t2"]
       "tasks.json" [] ∅)
  = mkWorld [mkTask 2 "B" "low" false "t2"; mkTask 1 "A" "high" true "t1"]
      "tasks.json" ["Marked task 1 as completed"] ∅.
Proof.
  apply (mark_done_flips_first 1 [] (mkTask 1 "A" "high" false "t1")
           [mkTask 2 "B" "low" false "t2"]
           (mkWorld [mkTask 1 "A" "high" false "t1";
                     mkTask 2 "B" "low" false "t2"] "tasks.json" [] ∅)).
  - reflexivity.
  - constructor.
  - reflexivity.
Defined.

(** X5: when the priority given is absent, empty or one of the three,
    [update_task] changes the first task that has the id and no other: a
    name that is given and not empty replaces its name, a priority that
    is given replaces its priority; then it reports the update and sorts
    the collection.  With neither given it still reports an update. *)
Theorem update_task_applies i nm p l1 t l2 w :
  tasks w = l1 ++ t :: l2 ->
  Forall (fun u => id u <> i) l1 -> id t = i ->
  truthy p = false \/ dict_mem (the_str p) PRIORITY_COLORS = true ->
  update_task i nm p w
  = mkWorld (list_sort (l1 ++ updated nm p t :: l2)) (filename w)
      (stdout w ++ ["Updated task " +:+ str_of_int i]) (files w).
Proof.
  intros Hw Hl1 Ht Hp. unfold update_task. rewrite Hw at 1.
  rewrite update_loop_found by assumption. rewrite Nat.add_0_l.
  unfold update_found, updated.
  assert (Hn : (if truthy nm then assign (length l1) (set_name (the_str nm)) w
                else w)
               = set_tasks
                   (l1 ++ (if truthy nm then set_name (the_str nm) t else t)
                       :: l2) w).
  { destruct (truthy nm); [apply (assign_middle l1 t l2 _ w Hw)|].
    unfold set_tasks. rewrite <- Hw. now destruct w. }
  rewrite Hn.
  destruct (truthy p) eqn:Ep.
  - destruct Hp as [Hp|Hp]; [discriminate|]. rewrite Hp.
    now rewrite (assign_middle l1
                   (if truthy nm then set_name (the_str nm) t else t) l2
                   (set_priority (the_str p))
                   (set_tasks
                      (l1 ++ (if truthy nm then set_name (the_str nm) t else t)
                          :: l2) w) eq_refl).
  - reflexivity.
Qed.

Lemma update_task_applies_witness :
  update_task 1 (Some "X") None
    (mkWorld [mkTask 1 "A" "low" false "t1"] "tasks.json" [] ∅)
  = mkWorld [mkTask 1 "X" "low" false "t1"] "tasks.json" ["Updated task 1"] ∅.
Proof.
  apply (update_task_applies 1 (Some "X") None [] (mkTask 1 "A" "low" false "t1")
           [] (mkWorld [mkTask 1 "A" "low" false "t1"] "tasks.json" [] ∅)).
  - reflexivity.
  - constructor.
  - reflexivity.
  - left. reflexivity.
Defined.

End StoreMore.

Section Invariants.

Lemma sorted_delete k l : sorted l -> sorted (delete k l).
Proof.
  intros H. revert k. induction H as [|x r Hr IH Hx]; intros [|k]; simpl.
  - constructor.
  - constructor.
  - exact Hr.
  - constructor; [apply IH | now apply Forall_delete].
Qed.

Lemma sorted_alter_key (f : task -> task) k l :
  (forall t, sort_key (f t) = sort_key t) -> sorted l -> sorted (alter f k l).
Proof.
  intros Hf H. revert k. induction H as [|x r Hr IH Hx]; intros [|k]; simpl.
  - constructor.
  - constructor.
  - constructor; [exact Hr|].
    eapply Forall_impl; [exact Hx|]. intros y Hy.
    unfold task_le in *. now rewrite Hf.
  - constructor; [apply IH|].
    apply Forall_alter; [exact Hx|]. intros y _ Hy.
    unfold task_le in *. now rewrite Hf.
Qed.

Lemma delete_loop_tasks i k l w :
  tasks (delete_loop i k l w) = tasks w
  \/ exists k', tasks (delete_loop i k l w) = delete k' (tasks w).
Proof.
  revert w k. induction l as [|x r IH]; intros w k; simpl; [now left|].
  destruct (id x =? i).
  - unfold pop. destruct (tasks w !! k) eqn:E; [|now left].
    right. now exists k.
  - apply (IH (print (not_found_msg i) w)).
Qed.

(** The tasks after [delete_task] are the tasks before, or these with
    one of them taken out. *)
Lemma delete_task_tasks i w :
  tasks (delete_task i w) = tasks w
  \/ exists k, tasks (delete_task i w) = delete k (tasks w).
Proof. apply delete_loop_tasks. Qed.

Lemma update_found_sorted i nm p k w :
  sorted (tasks w) -> sorted (tasks (update_found i nm p k w)).
Proof.
  intros H. unfold update_found.
  assert (Hn : sorted (tasks (if truthy nm
                              then assign k (set_name (the_str nm)) w else w))).
  { destruct (truthy nm); [|exact H]. simpl.
    apply sorted_alter_key; [intros []; reflexivity | exact H]. }
  destruct (truthy p); [|apply list_sort_sorted].
  destruct (dict_mem (the_str p) PRIORITY_COLORS);
    [apply list_sort_sorted | exact Hn].
Qed.

Lemma step_sorted o w : sorted (tasks w) -> sorted (tasks (step o w)).
Proof.
  intros H. destruct o as [now nm p|i|i nm p|i]; simpl.
  - unfold add_task. destruct (dict_mem p PRIORITY_COLORS); simpl;
      [apply list_sort_sorted | exact H].
  - destruct (delete_task_tasks i w) as [->|[k ->]];
      [exact H | now apply sorted_delete].
  - unfold update_task. generalize 0%nat. generalize (tasks w) at 1.
    intros l. induction l as [|x r IH]; intros k; simpl; [exact H|].
    destruct (id x =? i); [now apply update_found_sorted | apply IH].
  - unfold mark_done. generalize 0%nat. generalize (tasks w) at 1.
    intros l. induction l as [|x r IH]; intros k; simpl; [exact H|].
    destruct (id x =? i); [apply list_sort_sorted | apply IH].
Qed.

(** X6: the order is an invariant of the store: when the collection is
    ordered by the sort key, it is so after every sequence of add,
    delete, update and toggle calls, those that fail included. *)
Theorem run_keeps_sorted ops w :
  sorted (tasks w) -> sorted (tasks (run ops w)).
Proof.
  revert w. induction ops as [|o r IH]; intros w H; simpl; [exact H|].
  apply IH. now apply step_sorted.
Qed.

Lemma run_keeps_sorted_witness :
  sorted (tasks (run [OpAdd "t1" "A" "low"; OpAdd "t2" "B" "high";
                      OpToggle 2; OpUpdate 1 (Some "C") (Some "bogus");
                      OpDelete 5] empty_store)).
Proof.
  apply (run_keeps_sorted
           [OpAdd "t1" "A" "low"; OpAdd "t2" "B" "high"; OpToggle 2;
            OpUpdate 1 (Some "C") (Some "bogus"); OpDelete 5] empty_store).
  constructor.
Defined.

Lemma update_found_priorities i nm p k w :
  priorities_valid w -> priorities_valid (update_found i nm p k w).
Proof.
  unfold priorities_valid. intros H. unfold update_found.
  assert (Hn : Forall (fun t => dict_mem (priority t) PRIORITY_COLORS = true)
                 (tasks (if truthy nm
                         then assign k (set_name (the_str nm)) w else w))).
  { destruct (truthy nm); [|exact H]. simpl.
    apply Forall_alter; [exact H|]. intros [] _ Hy. exact Hy. }
  destruct (truthy p).
  - destruct (dict_mem (the_str p) PRIORITY_COLORS) eqn:Ep; [|exact Hn].
    simpl. rewrite list_sort_perm.
    apply Forall_alter; [exact Hn|]. intros [] _ _. exact Ep.
  - simpl. now rewrite list_sort_perm.
Qed.

Lemma step_priorities o w : priorities_valid w -> priorities_valid (step o w).
Proof.
  unfold priorities_valid. intros H.
  destruct o as [now nm p|i|i nm p|i]; simpl.
  - unfold add_task. destruct (dict_mem p PRIORITY_COLORS) eqn:Ep; simpl;
      [|exact H].
    rewrite list_sort_perm. apply Forall_app. split; [exact H|].
    constructor; [exact Ep | constructor].
  - destruct (delete_task_tasks i w) as [->|[k ->]];
      [exact H | now apply Forall_delete].
  - unfold update_task. generalize 0%nat. generalize (tasks w) at 1.
    intros l. induction l as [|x r IH]; intros k; simpl; [exact H|].
    destruct (id x =? i); [now apply update_found_priorities | apply IH].
  - unfold mark_done. generalize 0%nat. generalize (tasks w) at 1.
    intros l. induction l as [|x r IH]; intros k; simpl; [exact H|].
    destruct (id x =? i); [|apply IH].
    unfold mark_found. simpl. rewrite list_sort_perm.
    apply Forall_alter; [exact H|]. intros [] _ Hy. exact Hy.
Qed.

(** X7: no call stores a priority other than "high", "medium" and
    "low": when every task of the store has one of the three, so has
    every task after any sequence of add, delete, update and toggle
    calls, whatever priorities the calls are given. *)
Theorem run_keeps_priorities ops w :
  priorities_valid w -> priorities_valid (run ops w).
Proof.
  revert w. induction ops as [|o r IH]; intros w H; simpl; [exact H|].
  apply IH. now apply step_priorities.
Qed.

Lemma run_keeps_priorities_witness :
  priorities_valid
    (run [OpAdd "t1" "A" "urgent"; OpAdd "t2" "B" "high";
          OpUpdate 1 (Some "C") (Some "bogus")] empty_store).
Proof.
  apply (run_keeps_priorities
           [OpAdd "t1" "A" "urgent"; OpAdd "t2" "B" "high";
            OpUpdate 1 (Some "C") (Some "bogus")] empty_store).
  constructor.
Defined.

(** X8: as long as nothing is deleted, the ids of the store are the
    numbers from 1 to the number of tasks, each once: after every
    sequence of add, update and toggle calls from the empty store. *)
Theorem ids_one_to_count ops :
  Forall (fun o => is_delete o = false) ops ->
  ids (run ops empty_store)
  ≡ₚ seqZ 1 (Z.of_nat (length (tasks (run ops empty_store)))).
Proof. intros H. apply run_dense; [exact H | apply perm_nil]. Qed.

Lemma ids_one_to_count_witness :
  ids (run [OpAdd "t1" "A" "low"; OpAdd "t2" "B" "high"; OpToggle 1]
         empty_store)
  ≡ₚ seqZ 1 (Z.of_nat (length (tasks
        (run [OpAdd "t1" "A" "low"; OpAdd "t2" "B" "high"; OpToggle 1]
           empty_store)))).
Proof.
  apply (ids_one_to_count
           [OpAdd "t1" "A" "low"; OpAdd "t2" "B" "high"; OpToggle 1]).
  repeat constructor.
Defined.

(** X9: sorting a second time changes nothing. *)
Theorem sort_tasks_idempotent w : sort_tasks (sort_tasks w) = sort_tasks w.
Proof.
  unfold sort_tasks, set_tasks. simpl. f_equal.
  apply list_sort_id, list_sort_sorted.
Qed.

End Invariants.

(** * More about the export and the tasks file *)

Section ExportMore.

Lemma pending_lines_items l :
  concat_str (map pending_line l)
  = concat_str (map pending_item (filter (fun t => done t = false) l)).
Proof.
  induction l as [|t r IH]; [reflexivity|].
  rewrite filter_cons. cbn [map concat_str fold_right].
  unfold pending_line at 1. fold (concat_str (map pending_line r)).
  rewrite IH. destruct (done t) eqn:E; cbn [negb].
  - now rewrite decide_False by discriminate.
  - now rewrite decide_True by reflexivity.
Qed.

Lemma completed_lines_items l :
  concat_str (map completed_line l)
  = concat_str (map completed_item (filter (fun t => done t = true) l)).
Proof.
  induction l as [|t r IH]; [reflexivity|].
  rewrite filter_cons. cbn [map concat_str fold_right].
  unfold completed_line at 1. fold (concat_str (map completed_line r)).
  rewrite IH. destruct (done t) eqn:E.
  - now rewrite decide_True by reflexivity.
  - now rewrite decide_False by discriminate.
Qed.

(** X10: with at least one task, [export_to_markdown] writes one file,
    named after the clock, returns its name, reports it and leaves the
    tasks as they are.  The document has the title, the export time, the
    pending section with one item for every pending task and the
    completed section with one item for every completed task, both in
    the order of the store; a task appears in one section only. *)
Theorem export_writes_document now_file now_line w :
  tasks w <> [] ->
  export_to_markdown now_file now_line w
  = (Some ("todo_export_" +:+ now_file +:+ ".md"),
     mkWorld (tasks w) (filename w)
       (stdout w ++ ["Tasks exported to " +:+ "todo_export_" +:+ now_file
                     +:+ ".md"])
       (<["todo_export_" +:+ now_file +:+ ".md" :=
            "# Todo List" +:+ nl +:+ nl
            +:+ "Exported on : " +:+ now_line +:+ nl +:+ nl
            +:+ "## Pending Tasks" +:+ nl +:+ nl
            +:+ concat_str
                  (map pending_item
                     (filter (fun t => done t = false) (tasks w)))
            +:+ nl +:+ "## Completed Tasks" +:+ nl +:+ nl
            +:+ concat_str
                  (map completed_item
                     (filter (fun t => done t = true) (tasks w)))]>
          (files w))).
Proof.
  intros H. unfold export_to_markdown.
  destruct (tasks w) as [|t r] eqn:E; [contradiction|].
  unfold markdown_of, write_file, print. cbn [tasks filename stdout files].
  rewrite E. now rewrite pending_lines_items, completed_lines_items.
Qed.

Lemma export_writes_document_witness :
  fst (export_to_markdown "20240101_000000" "2024-01-01 00:00:00"
         (mkWorld [mkTask 1 "A" "high" false "t1"] "tasks.json" [] ∅))
  = Some "todo_export_20240101_000000.md".
Proof.
  rewrite (export_writes_document "20240101_000000" "2024-01-01 00:00:00"
             (mkWorld [mkTask 1 "A" "high" false "t1"] "tasks.json" [] ∅));
    [reflexivity | discriminate].
Defined.

Lemma export_name_not_tasks_file now_file :
  "todo_export_" +:+ now_file +:+ ".md" <> "tasks.json"%string.
Proof. rewrite !append_cons. discriminate. Qed.

(** X11: [export_to_markdown] never touches the tasks file nor the
    tasks: what a later [load_tasks] or [save_tasks] sees is what it
    would have seen without the export. *)
Theorem export_keeps_tasks_file now_file now_line w :
  tasks (snd (export_to_markdown now_file now_line w)) = tasks w
  /\ files (snd (export_to_markdown now_file now_line w)) !! "tasks.json"
     = files w !! "tasks.json".
Proof.
  unfold export_to_markdown. destruct (tasks w) as [|t r] eqn:E; simpl.
  - now rewrite E.
  - rewrite E. split; [reflexivity|].
    apply lookup_insert_ne, export_name_not_tasks_file.
Qed.

(** X12: the name of the exported file is made of the clock reading to
    the second: a second export at the same reading writes to the same
    file, and only its document is left. *)
Theorem export_same_second_overwrites now_file line1 line2 w :
  files (snd (export_to_markdown now_file line2
                (snd (export_to_markdown now_file line1 w))))
  = files (snd (export_to_markdown now_file line2 w)).
Proof.
  unfold export_to_markdown. destruct (tasks w) as [|t r] eqn:E; simpl.
  - now rewrite E.
  - rewrite E. simpl. apply insert_insert_eq.
Qed.

End ExportMore.

Section PersistenceMore.

(** Without a tasks file [load_tasks] starts with the empty collection,
    prints nothing and creates no file. *)
Lemma load_tasks_no_file w :
  files w !! filename w = None ->
  load_tasks w = Some (mkWorld [] (filename w) (stdout w) (files w)).
Proof. intros H. unfold load_tasks. now rewrite H. Qed.

Lemma load_tasks_corrupt w text :
  files w !! filename w = Some text ->
  loads text = DecodeError ->
  load_tasks w
  = Some (mkWorld [] (filename w)
            (stdout w ++ ["Error loading tasks file. Starting with empty list"])
            (files w)).
Proof. intros H Ht. unfold load_tasks. now rewrite H, Ht. Qed.

Lemma loads_no_value text : no_value text = true -> loads text = DecodeError.
Proof.
  unfold no_value, loads. rewrite Nat.add_1_r.
  destruct (skip_ws text) as [|c r]; [reflexivity|].
  destruct c as [[] [] [] [] [] [] [] []]; intros H;
    try discriminate H; reflexivity.
Qed.

(** X14: a tasks file that is empty, holds white space only, or begins
    with a character no JSON value begins with is reported by
    [load_tasks], which starts with the empty collection and leaves the
    file as it is. *)
Theorem load_tasks_corrupt_file w text :
  files w !! filename w = Some text ->
  no_value text = true ->
  load_tasks w
  = Some (mkWorld [] (filename w)
            (stdout w ++ ["Error loading tasks file. Starting with empty list"])
            (files w)).
Proof.
  intros H Ht. apply (load_tasks_corrupt w text H), loads_no_value, Ht.
Qed.

Lemma load_tasks_corrupt_file_witness :
  load_tasks (mkWorld [] "tasks.json" [] {[ "tasks.json" := "" ]})
  = Some (mkWorld [] "tasks.json"
            ["Error loading tasks file. Starting with empty list"]
            {[ "tasks.json" := "" ]}).
Proof.
  exact (load_tasks_corrupt_file
           (mkWorld [] "tasks.json" [] {[ "tasks.json" := "" ]}) ""
           eq_refl eq_refl).
Defined.

(** X15: such a tasks file is lost at the next save: after [load_tasks]
    and [save_tasks] the file holds the empty list. *)
Theorem corrupt_file_overwritten_by_save w text :
  files w !! filename w = Some text ->
  no_value text = true ->
  (fun w' => files (save_tasks w') !! filename w) <$> load_tasks w
  = Some (Some "[]"%string).
Proof.
  intros H Ht.
  rewrite (load_tasks_corrupt w text H (loads_no_value text Ht)). simpl.
  now rewrite lookup_insert_eq.
Qed.

Lemma corrupt_file_overwritten_by_save_witness :
  (fun w' => files (save_tasks w') !! "tasks.json")
    <$> load_tasks (mkWorld [] "tasks.json" []
                      {[ "tasks.json" := "my tasks: milk, tea" ]})
  = Some (Some "[]"%string).
Proof.
  exact (corrupt_file_overwritten_by_save
           (mkWorld [] "tasks.json" []
              {[ "tasks.json" := "my tasks: milk, tea" ]})
           "my tasks: milk, tea" eq_refl eq_refl).
Defined.

Lemma ascii_only_append a b :
  ascii_only (a +:+ b) = ascii_only a && ascii_only b.
Proof.
  unfold ascii_only. induction a as [|c a IH]; [reflexivity|].
  rewrite append_cons. cbn [all_chars]. now rewrite IH, andb_assoc.
Qed.

Lemma ascii_only_escape_char c : ascii_only (escape_char c) = true.
Proof. destruct c as [[] [] [] [] [] [] [] []]; reflexivity. Qed.

Lemma ascii_only_encode_str s : ascii_only (encode_basestring_ascii s) = true.
Proof.
  unfold encode_basestring_ascii.
  assert (H : ascii_only (escape_chars s) = true).
  { induction s as [|c r IH]; [reflexivity|]. cbn [escape_chars].
    now rewrite ascii_only_append, ascii_only_escape_char, IH. }
  change (String dquote (escape_chars s +:+ String dquote ""))
    with (String dquote "" +:+ escape_chars s +:+ String dquote "").
  now rewrite !ascii_only_append, H.
Qed.

Lemma ascii_only_uint d : ascii_only (NilEmpty.string_of_uint d) = true.
Proof. induction d; try reflexivity; exact IHd. Qed.

Lemma ascii_only_str_of_int z : ascii_only (str_of_int z) = true.
Proof.
  destruct z as [|p|p]; unfold str_of_int;
    cbn [Z.to_int NilZero.string_of_int]; [reflexivity| |].
  - rewrite nilzero_string_of_uint. apply ascii_only_uint.
  - rewrite nilzero_string_of_uint. apply (ascii_only_uint (Pos.to_uint p)).
Qed.

Lemma ascii_only_encode_task t :
  ascii_only (encode 2 1 (task_to_value t)) = true.
Proof.
  unfold task_to_value. cbn [encode map join].
  rewrite !ascii_only_append, !ascii_only_encode_str, ascii_only_str_of_int.
  now destruct (done t).
Qed.

(** What [json.dump] has written is plain ASCII, also when it stops
    before the end. *)
Lemma ascii_only_emit_items l :
  forall buf,
    ascii_only buf = true ->
    ascii_only
      (fst (emit_items (emit 2 1) item_sep list_close buf
              (map task_to_value l))) = true.
Proof.
  induction l as [|t r IH]; intros buf Hb; [reflexivity|].
  cbn [map emit_items]. rewrite emit_task.
  destruct (int_ok (id t)).
  - specialize (IH item_sep eq_refl).
    destruct (emit_items _ _ _ _ _) as [t' ok']. cbn [fst] in *.
    now rewrite !ascii_only_append, Hb, ascii_only_encode_task, IH.
  - cbn [task_to_value fst]. now rewrite ascii_only_append, Hb.
Qed.

Lemma ascii_only_dump l :
  ascii_only (fst (dump 2 (tasks_to_value l))) = true.
Proof.
  destruct l as [|t r]; [reflexivity|].
  apply (ascii_only_emit_items (t :: r)). reflexivity.
Qed.

(** X16: [save_tasks] writes the tasks file and nothing else: the tasks
    and every other file are as before.  What it writes is plain ASCII,
    also where a name holds a control character, a quote or a character
    from 128 to 255. *)
Theorem save_tasks_writes_ascii w :
  tasks (save_tasks w) = tasks w
  /\ (forall path, path <> filename w ->
        files (save_tasks w) !! path = files w !! path)
  /\ exists text, files (save_tasks w) !! filename w = Some text
                  /\ ascii_only text = true.
Proof.
  pose proof (ascii_only_dump (tasks w)) as Ha. unfold save_tasks.
  destruct (dump 2 (tasks_to_value (tasks w))) as [text ok].
  cbn [fst] in Ha. split; [|split].
  - now destruct ok.
  - intros path Hp. destruct ok; simpl; now apply lookup_insert_ne.
  - exists text. split; [|exact Ha].
    destruct ok; simpl; apply lookup_insert_eq.
Qed.

End PersistenceMore.


(** * The console *)

Section ConsoleFacts.

Variables (check_mark box : string) (clock : nat -> reading).

Lemma session_frame_refl s : session_frame s s.
Proof. repeat split; reflexivity || lia. Qed.

Lemma session_frame_trans s1 s2 s3 :
  session_frame s1 s2 -> session_frame s2 s3 -> session_frame s1 s3.
Proof.
  intros (H1 & H2 & H3) (K1 & K2 & K3). repeat split; try lia; congruence.
Qed.

Lemma keeps_ret {A} (P : A -> Prop) a : P a -> keeps P (ret a).
Proof. intros H s. split; [apply session_frame_refl | exact H]. Qed.

Lemma keeps_raise {A} (P : A -> Prop) e : keeps P (raise e).
Proof. intros s. apply session_frame_refl. Qed.

Lemma keeps_bind {A B} (P : A -> Prop) (Q : B -> Prop) (m : M A) (k : A -> M B) :
  keeps P m -> (forall a, P a -> keeps Q (k a)) -> keeps Q (bindM m k).
Proof.
  intros Hm Hk s. unfold bindM. specialize (Hm s).
  destruct (m s) as [a s1|e s1| |]; try exact Hm.
  destruct Hm as [Hf Ha]. specialize (Hk a Ha s1).
  destruct (k a s1) as [b s2|e s2| |]; try exact Hk.
  - destruct Hk as [Hf' Hb]. split; [|exact Hb].
    eapply session_frame_trans; eassumption.
  - eapply session_frame_trans; eassumption.
Qed.

Lemma keeps_weaken {A} (P Q : A -> Prop) (m : M A) :
  (forall a, P a -> Q a) -> keeps P m -> keeps Q m.
Proof.
  intros H Hm s. specialize (Hm s). destruct (m s); try exact Hm.
  destruct Hm. split; auto.
Qed.

Lemma keeps_try (m h : M unit) :
  keeps (fun _ => True) m -> keeps (fun _ => True) h ->
  keeps (fun _ => True) (try_except_ValueError m h).
Proof.
  intros Hm Hh s. unfold try_except_ValueError. specialize (Hm s).
  destruct (m s) as [a s1|[] s1| |]; try exact Hm.
  specialize (Hh s1). destruct (h s1) as [b s2|e s2| |]; try exact Hh.
  - split; [|exact I]. eapply session_frame_trans; [exact Hm | apply Hh].
  - eapply session_frame_trans; eassumption.
Qed.

Lemma keeps_call f : world_frame f -> keeps (fun _ => True) (call f).
Proof.
  intros H s. unfold call. destruct (H (store s)) as [H1 H2].
  repeat split; simpl; auto.
Qed.

Lemma keeps_input text : keeps (fun _ => True) (input text).
Proof.
  intros s. unfold input. destruct (stdin s) as [|l r] eqn:E.
  - repeat split; simpl; lia || reflexivity.
  - repeat split; simpl; try reflexivity. rewrite E. simpl. lia.
Qed.

Lemma keeps_int_of line : keeps (fun _ => True) (int_of line).
Proof.
  unfold int_of. destruct (py_int line).
  - now apply keeps_ret.
  - apply keeps_raise.
  - intros s. exact I.
Qed.

Lemma world_frame_print line : world_frame (print line).
Proof. intros w. split; reflexivity. Qed.

Lemma world_frame_add now nm p : world_frame (add_task now nm p).
Proof.
  intros w. unfold add_task.
  destruct (dict_mem p PRIORITY_COLORS); split; reflexivity.
Qed.

Lemma delete_loop_frame i k l w :
  filename (delete_loop i k l w) = filename w
  /\ files (delete_loop i k l w) = files w.
Proof.
  revert k w. induction l as [|x r IH]; intros k w; simpl; [now split|].
  destruct (id x =? i).
  - unfold pop. destruct (tasks w !! k); split; reflexivity.
  - destruct (IH (S k) (print (not_found_msg i) w)) as [H1 H2].
    now rewrite H1, H2.
Qed.

Lemma world_frame_delete i : world_frame (delete_task i).
Proof.
  intros w. destruct (delete_loop_frame i 0 (tasks w) w) as [H1 H2].
  unfold delete_task. now rewrite H1, H2.
Qed.

Lemma update_loop_frame i nm p k l w :
  filename (update_loop i nm p k l w) = filename w
  /\ files (update_loop i nm p k l w) = files w.
Proof.
  revert k. induction l as [|x r IH]; intros k; simpl; [now split|].
  destruct (id x =? i); [|apply IH].
  unfold update_found.
  destruct (truthy nm), (truthy p);
    try destruct (dict_mem (the_str p) PRIORITY_COLORS); split; reflexivity.
Qed.

Lemma world_frame_update i nm p : world_frame (update_task i nm p).
Proof.
  intros w. destruct (update_loop_frame i nm p 0 (tasks w) w) as [H1 H2].
  unfold update_task. now rewrite H1, H2.
Qed.

Lemma mark_loop_frame i k l w :
  filename (mark_loop i k l w) = filename w
  /\ files (mark_loop i k l w) = files w.
Proof.
  revert k. induction l as [|x r IH]; intros k; simpl; [now split|].
  destruct (id x =? i); [|apply IH]. split; reflexivity.
Qed.

Lemma world_frame_mark i : world_frame (mark_done i).
Proof.
  intros w. destruct (mark_loop_frame i 0 (tasks w) w) as [H1 H2].
  unfold mark_done. now rewrite H1, H2.
Qed.

(** The loop of [list_tasks]. *)
Lemma list_rows_fold l w :
  fold_left
    (fun w task => print (rule "=") (print (list_row check_mark box task) w))
    l w
  = mkWorld (tasks w) (filename w)
      (stdout w
       ++ flat_map (fun t => [list_row check_mark box t; rule "="]) l)
      (files w).
Proof.
  revert w. induction l as [|t r IH]; intros w; simpl.
  - rewrite app_nil_r. now destruct w.
  - rewrite IH. unfold print. simpl. now rewrite <- !app_assoc.
Qed.

Lemma list_tasks_eq w :
  list_tasks check_mark box w
  = mkWorld (tasks w) (filename w)
      (stdout w
       ++ match tasks w with
          | [] => ["No tasks found."]
          | _ :: _ =>
              [nl +:+ "Your To-Do List:"; rule "=";
               "ID   STATUS    NAME      PRIORITY"
               +:+ "                                          ";
               rule "-"]
              ++ flat_map (fun t => [list_row check_mark box t; rule "="])
                   (tasks w)
          end)
      (files w).
Proof.
  unfold list_tasks. destruct (tasks w) as [|t r] eqn:E.
  - unfold print. now rewrite E.
  - cbn [tasks print]. rewrite E.
    change (str_mul "=" 80) with (rule "=").
    rewrite (list_rows_fold (t :: r)). cbn [tasks filename stdout files].
    f_equal; [exact E|]. unfold print. cbn [stdout].
    now rewrite <- !app_assoc.
Qed.

Lemma world_frame_list : world_frame (list_tasks check_mark box).
Proof. intros w. rewrite list_tasks_eq. split; reflexivity. Qed.

(** X17: [list_tasks] changes neither the tasks nor the files.  For the
    empty collection it prints "No tasks found."; otherwise it prints
    the title, a rule, the column heads and a rule, and then for every
    task, in the order of the store, its row followed by a rule. *)
Theorem list_tasks_prints_rows w :
  list_tasks check_mark box w
  = mkWorld (tasks w) (filename w)
      (stdout w
       ++ match tasks w with
          | [] => ["No tasks found."]
          | _ :: _ =>
              [nl +:+ "Your To-Do List:"; rule "=";
               "ID   STATUS    NAME      PRIORITY"
               +:+ "                                          ";
               rule "-"]
              ++ flat_map (fun t => [list_row check_mark box t; rule "="])
                   (tasks w)
          end)
      (files w).
Proof. apply list_tasks_eq. Qed.

Lemma keeps_now : keeps (fun _ => True) (now clock).
Proof. intros s. repeat split; simpl; reflexivity || lia. Qed.

Lemma keeps_add_task_io nm p : keeps (fun _ => True) (add_task_io clock nm p).
Proof.
  unfold add_task_io. destruct (dict_mem p PRIORITY_COLORS); cbn [negb].
  - eapply keeps_bind; [apply keeps_now | intros t _].
    apply keeps_call, world_frame_add.
  - apply keeps_call, world_frame_add.
Qed.

Lemma keeps_export_io : keeps (fun _ => True) (export_to_markdown_io clock).
Proof.
  intros s. unfold export_to_markdown_io, export_to_markdown.
  destruct (tasks (store s)) as [|t r]; repeat split; simpl;
    try reflexivity; try lia.
  apply lookup_insert_ne, export_name_not_tasks_file.
Qed.

(** [display_menu] returns only after it has read a line. *)
Lemma display_menu_spec s :
  match display_menu s with
  | Ret _ s' =>
      session_frame s s' /\ (length (stdin s') < length (stdin s))%nat
  | Raise _ s' => session_frame s s'
  | NoModel => False
  | OutOfFuel => False
  end.
Proof.
  unfold display_menu, bindM, call, input. cbn [store stdin ticks].
  destruct (stdin s) as [|l r] eqn:E; repeat split; simpl;
    try reflexivity; rewrite ?E; simpl; lia.
Qed.

Ltac keeps_steps :=
  repeat first
    [ apply keeps_ret; reflexivity
    | apply keeps_input
    | apply keeps_int_of
    | apply keeps_add_task_io
    | apply keeps_export_io
    | apply keeps_try
    | apply keeps_call;
      first [ apply world_frame_print | apply world_frame_mark
            | apply world_frame_delete | apply world_frame_update
            | apply world_frame_list ]
    | eapply keeps_bind; [|intros ? _] ].

(** Every branch but the one of option 7 stays within the frame and
    asks for another turn. *)
Lemma menu_action_keeps choice :
  choice <> "7"%string ->
  keeps (fun b => b = true) (menu_action check_mark box clock choice).
Proof.
  intros H7. unfold menu_action, bad_number.
  destruct (String.eqb choice "1"); [keeps_steps|].
  destruct (String.eqb choice "2"); [keeps_steps|].
  destruct (String.eqb choice "3"); [keeps_steps|].
  destruct (String.eqb choice "4"); [keeps_steps|].
  destruct (String.eqb choice "5"); [keeps_steps|].
  destruct (String.eqb choice "6"); [keeps_steps|].
  destruct (String.eqb_spec choice "7"); [contradiction|].
  keeps_steps.
Qed.

Lemma menu_action_exit s :
  menu_action check_mark box clock "7" s
  = if dump_completes (store s) then
      Ret false
        (mkSession (print "Goodbye!" (save_tasks (store s)))
           (stdin s) (ticks s))
    else NoModel.
Proof.
  unfold menu_action. cbn [String.eqb Ascii.eqb Bool.eqb].
  unfold bindM, save_tasks_io. now destruct (dump_completes (store s)).
Qed.

Lemma load_after_save w :
  dump_completes w = true ->
  load_tasks (print "Goodbye!" (save_tasks w))
  = Some (print "Goodbye!" (save_tasks w)).
Proof.
  rewrite dump_completes_ids. intros Hok.
  rewrite (load_saved w (print "Goodbye!" (save_tasks w)) Hok);
    rewrite ?(save_tasks_completes w Hok); reflexivity.
Qed.

(** What the loop does with enough fuel for the lines there are. *)
Lemma main_loop_spec fuel :
  forall s,
    (length (stdin s) < fuel)%nat ->
    match main_loop check_mark box clock fuel s with
    | Ret _ s' =>
        filename (store s') = filename (store s)
        /\ load_tasks (store s') = Some (store s')
        /\ last (stdout (store s')) = Some "Goodbye!"%string
    | Raise _ s' => session_frame s s'
    | NoModel => True
    | OutOfFuel => False
    end.
Proof.
  induction fuel as [|fuel IH]; intros s Hs; [lia|].
  cbn [main_loop]. unfold bindM at 1.
  pose proof (display_menu_spec s) as Hd.
  destruct (display_menu s) as [choice s1|e s1| |];
    try exact Hd; try contradiction.
  destruct Hd as [Hf1 Hlt]. unfold bindM.
  destruct (String.eqb_spec choice "7") as [->|Hne].
  - rewrite menu_action_exit.
    destruct (dump_completes (store s1)) eqn:Hc; [|exact I].
    cbn [ret store]. split; [|split].
    + rewrite (save_tasks_completes (store s1))
        by now rewrite <- dump_completes_ids.
      apply Hf1.
    + now apply load_after_save.
    + simpl. apply last_snoc.
  - pose proof (menu_action_keeps choice Hne s1) as Hm.
    destruct (menu_action check_mark box clock choice s1) as [b s2|e s2| |];
      try exact Hm.
    + destruct Hm as [Hf2 ->].
      assert (Hs2 : (length (stdin s2) < fuel)%nat).
      { destruct Hf2 as [H _]. lia. }
      specialize (IH s2 Hs2).
      destruct (main_loop check_mark box clock fuel s2) as [u s3|e s3| |];
        try exact IH.
      * destruct IH as (K1 & K2 & K3). split; [|split]; auto.
        rewrite K1. destruct Hf2 as (_ & -> & _). apply Hf1.
      * eapply session_frame_trans; [exact Hf1|].
        eapply session_frame_trans; eassumption.
    + eapply session_frame_trans; eassumption.
Qed.

Lemma TodoList_frame fs w :
  TodoList fs = Some w -> filename w = "tasks.json"%string /\ files w = fs.
Proof.
  unfold TodoList, load_tasks. cbn [files filename].
  destruct (fs !! "tasks.json") as [text|]; [|now intros [= <-]].
  destruct (loads text) as [v rest| | | |];
    [| now intros [= <-] | discriminate ..].
  destruct (tasks_of_value v); [now intros [= <-] | discriminate].
Qed.

(** What [load_tasks] finds depends on the file alone. *)
Lemma load_tasks_tasks w w' v :
  load_tasks w = Some w' ->
  filename v = filename w -> files v = files w ->
  exists v', load_tasks v = Some v' /\ tasks v' = tasks w'.
Proof.
  unfold load_tasks. intros H Hn Hf. rewrite Hn, Hf.
  destruct (files w !! filename w) as [text|].
  - destruct (loads text) as [x rest| | | |]; [| |discriminate ..].
    + destruct (tasks_of_value x); [|discriminate].
      injection H as <-. eexists. split; reflexivity.
    + injection H as <-. eexists. split; reflexivity.
  - injection H as <-. eexists. split; reflexivity.
Qed.

(** X18: option 1 of the menu stores every new task with the priority
    "medium", whatever number is typed at the priority prompt: the keys
    of [priority_map] are strings and the key looked up is an [int]. *)
Theorem menu_add_uses_medium w nm line n rest k :
  py_int line = IntOk n ->
  menu_action check_mark box clock "1" (mkSession w (nm :: line :: rest) k)
  = Ret true
      (mkSession
         (add_task (stamp (clock k)) nm "medium"
            (prompt "Enter priority (1: high | 2: medium | 3: low): "
               (prompt "Enter task name: " w)))
         rest (S k)).
Proof.
  intros H. unfold menu_action, bindM, input, int_of. cbn. now rewrite H.
Qed.

(** X19: a line that is no number at the priority prompt of option 1
    ends the session with [ValueError], which nothing catches: the tasks
    are as they were and no file has been written. *)
Theorem add_non_number_ends_session fuel w nm line rest k :
  py_int line = IntValueError ->
  exists s',
    main_loop check_mark box clock (S fuel)
      (mkSession w ("1" :: nm :: line :: rest) k)
    = Raise ValueError s'
    /\ tasks (store s') = tasks w /\ files (store s') = files w.
Proof.
  intros H. eexists. split.
  - cbn [main_loop]. unfold bindM, display_menu, bindM, call, input,
      menu_action, bindM, input, int_of. cbn. rewrite H. reflexivity.
  - split; reflexivity.
Qed.

Lemma update_found_no_priority i nm k w :
  priority <$> tasks (update_found i nm None k w) ≡ₚ priority <$> tasks w.
Proof.
  unfold update_found. cbn [truthy]. cbn [tasks sort_tasks set_tasks print].
  rewrite list_sort_perm. destruct (truthy nm); [|reflexivity].
  cbn [tasks assign set_tasks].
  rewrite (list_fmap_alter priority (set_name (the_str nm)) (fun z => z))
    by (apply Forall_forall; intros [] _; reflexivity).
  now rewrite list_alter_id.
Qed.

Lemma update_task_no_priority i nm w :
  priority <$> tasks (update_task i nm None w) ≡ₚ priority <$> tasks w.
Proof.
  unfold update_task. generalize 0%nat. generalize (tasks w) at 1.
  intros l. induction l as [|x r IH]; intros k; simpl; [reflexivity|].
  destruct (id x =? i); [apply update_found_no_priority | apply IH].
Qed.

(** X20: option 5 of the menu asks for a priority twice and passes none
    to [update_task]: the call is [update_task(task_id, name, None)],
    and the priorities of the store are after it what they were. *)
Theorem menu_update_passes_no_priority w l1 nm l3 l4 rest k i a b :
  py_int l1 = IntOk i -> py_int l3 = IntOk a -> py_int l4 = IntOk b ->
  let w' :=
    prompt "Enter priority (1: high | 2: medium 3: low): "
      (prompt "Enter a new priority (1: high | 2: medium | 3: low): "
         (prompt "Enter new name: "
            (prompt "Enter task number to update: " w))) in
  menu_action check_mark box clock "5"
    (mkSession w (l1 :: nm :: l3 :: l4 :: rest) k)
  = Ret true (mkSession (update_task i (Some nm) None w') rest k)
  /\ priority <$> tasks (update_task i (Some nm) None w')
     ≡ₚ priority <$> tasks w.
Proof.
  intros H1 H3 H4 w'. split.
  - unfold menu_action, try_except_ValueError, bindM, input, int_of. cbn.
    rewrite H1. cbn. rewrite H3. cbn. rewrite H4. reflexivity.
  - now rewrite update_task_no_priority.
Qed.

(** X21: in options 2, 4 and 5 a line that is no number at the prompt
    for the task number is answered with "Please enter a valid task
    number."; the tasks are untouched and the menu comes again. *)
Theorem menu_bad_number_recovers w line rest k :
  py_int line = IntValueError ->
  menu_action check_mark box clock "2" (mkSession w (line :: rest) k)
  = Ret true
      (mkSession
         (print "Please enter a valid task number."
            (prompt "Enter task number to mark as done/undone: " w)) rest k)
  /\ menu_action check_mark box clock "4" (mkSession w (line :: rest) k)
     = Ret true
         (mkSession
            (print "Please enter a valid task number."
               (prompt "Enter task number to delete: " w)) rest k)
  /\ menu_action check_mark box clock "5" (mkSession w (line :: rest) k)
     = Ret true
         (mkSession
            (print "Please enter a valid task number."
               (prompt "Enter task number to update: " w)) rest k).
Proof.
  intros H. repeat split;
    unfold menu_action, try_except_ValueError, bindM, input, int_of; cbn;
    rewrite H; reflexivity.
Qed.

(** X22: a session over finitely many typed lines ends: every turn of
    the loop reads a line or ends the session, so the loop is never cut
    short by its bound. *)
Theorem main_always_ends fs lines :
  main check_mark box clock fs lines <> OutOfFuel.
Proof.
  unfold main. destruct (TodoList fs) as [w|]; [|discriminate].
  pose proof (main_loop_spec (S (length lines)) (mkSession w lines 0)) as H.
  cbn [stdin] in H. specialize (H (Nat.lt_succ_diag_r _)).
  intros E. rewrite E in H. exact H.
Qed.

(** X23: a session that returns has ended by option 7, and its last act
    but the farewell was to save: the next start of the program finds
    in the tasks file the tasks the session ended with. *)
Theorem main_exit_is_saved fs lines s' :
  main check_mark box clock fs lines = Ret tt s' ->
  last (stdout (store s')) = Some "Goodbye!"%string
  /\ exists w, TodoList (files (store s')) = Some w
               /\ tasks w = tasks (store s').
Proof.
  unfold main. destruct (TodoList fs) as [w|] eqn:Ew; [|discriminate].
  intros E.
  pose proof (main_loop_spec (S (length lines)) (mkSession w lines 0)) as H.
  cbn [stdin store] in H. specialize (H (Nat.lt_succ_diag_r _)).
  rewrite E in H. destruct H as (Hn & Hl & Hg). split; [exact Hg|].
  apply TodoList_frame in Ew as [Hw _]. rewrite Hw in Hn.
  unfold TodoList.
  apply (load_tasks_tasks (store s') (store s')); [exact Hl | | reflexivity].
  now rewrite Hn.
Qed.

(** X24: a session that ends with an exception, [EOFError] when the
    lines run out or [ValueError] at the priority prompt of option 1,
    has not written the tasks file: it holds what it held at the start. *)
Theorem main_exception_keeps_file fs lines e s' :
  main check_mark box clock fs lines = Raise e s' ->
  files (store s') !! "tasks.json" = fs !! "tasks.json".
Proof.
  unfold main. destruct (TodoList fs) as [w|] eqn:Ew; [|discriminate].
  intros E.
  pose proof (main_loop_spec (S (length lines)) (mkSession w lines 0)) as H.
  cbn [stdin store] in H. specialize (H (Nat.lt_succ_diag_r _)).
  rewrite E in H. destruct H as (_ & _ & Hf). cbn [store] in Hf.
  apply TodoList_frame in Ew as [_ Hw]. now rewrite Hf, Hw.
Qed.

End ConsoleFacts.

Section ConsoleExamples.

Lemma menu_add_uses_medium_witness :
  menu_action "V" "O" noon "1" (mkSession empty_store ["milk"; "1"] 0)
  = Ret true
      (mkSession
         (add_task "2024-01-01 12:00:00" "milk" "medium"
            (prompt "Enter priority (1: high | 2: medium | 3: low): "
               (prompt "Enter task name: " empty_store)))
         [] 1).
Proof.
  exact (menu_add_uses_medium "V" "O" noon empty_store "milk" "1" 1 [] 0
           eq_refl).
Defined.

Lemma add_non_number_ends_session_witness :
  exists s',
    main_loop "V" "O" noon 1 (mkSession empty_store ["1"; "milk"; "high"] 0)
    = Raise ValueError s'
    /\ tasks (store s') = [] /\ files (store s') = ∅.
Proof.
  exact (add_non_number_ends_session "V" "O" noon 0 empty_store "milk" "high"
           [] 0 eq_refl).
Defined.

Lemma menu_update_passes_no_priority_witness :
  priority
    <$> tasks (update_task 1 (Some "tea") None
                 (prompt "Enter priority (1: high | 2: medium 3: low): "
                    (prompt "Enter a new priority (1: high | 2: medium | 3: low): "
                       (prompt "Enter new name: "
                          (prompt "Enter task number to update: "
                             (mkWorld [mkTask 1 "milk" "low" false "t1"]
                                "tasks.json" [] ∅))))))
  ≡ₚ ["low"%string].
Proof.
  exact (proj2 (menu_update_passes_no_priority "V" "O" noon
                  (mkWorld [mkTask 1 "milk" "low" false "t1"] "tasks.json" [] ∅)
                  "1" "tea" "1" "1" [] 0 1 1 1 eq_refl eq_refl eq_refl)).
Defined.

Lemma menu_bad_number_recovers_witness :
  menu_action "V" "O" noon "4" (mkSession empty_store ["one"] 0)
  = Ret true
      (mkSession
         (print "Please enter a valid task number."
            (prompt "Enter task number to delete: " empty_store)) [] 0).
Proof.
  exact (proj1 (proj2 (menu_bad_number_recovers "V" "O" noon empty_store
                         "one" [] 0 eq_refl))).
Defined.

Lemma main_exit_is_saved_witness :
  last (stdout (print "Goodbye!" (save_tasks (menu_shown empty_store))))
  = Some "Goodbye!"%string
  /\ exists w,
       TodoList (files (print "Goodbye!" (save_tasks (menu_shown empty_store))))
       = Some w
       /\ tasks w = [].
Proof.
  exact (main_exit_is_saved "V" "O" noon ∅ ["7"]
           (mkSession (print "Goodbye!" (save_tasks (menu_shown empty_store)))
              [] 0) eq_refl).
Defined.

Lemma main_exception_keeps_file_witness :
  files (menu_shown empty_store) !! "tasks.json" = (∅ : gmap string string) !! "tasks.json".
Proof.
  exact (main_exception_keeps_file "V" "O" noon ∅ [] EOFError
           (mkSession (menu_shown empty_store) [] 0) eq_refl).
Defined.

End ConsoleExamples.

Section TypedNumbers.

Lemma printable_uint d : all_chars printable (NilEmpty.string_of_uint d) = true.
Proof. induction d; try reflexivity; exact IHd. Qed.

Lemma int_digits_uint d :
  int_digits (NilEmpty.string_of_uint d)
  = Some (NilEmpty.string_of_uint d, ""%string).
Proof.
  induction d; [reflexivity|..]; cbn [NilEmpty.string_of_uint int_digits];
    match goal with
    | |- context [is_digit ?c] => change (is_digit c) with true
    end; cbn iota; now rewrite IHd.
Qed.

Lemma py_int_uint (neg : bool) p :
  (String.length (NilEmpty.string_of_uint (Pos.to_uint p)) <= 640)%nat ->
  py_int ((if neg then "-" else "")
          +:+ NilEmpty.string_of_uint (Pos.to_uint p))
  = IntOk (if neg then Z.neg p else Z.pos p).
Proof.
  intros Hlen.
  destruct (to_uint_head p) as (c & r & E & Hc & H0).
  pose proof (printable_uint (Pos.to_uint p)) as Hp.
  pose proof (int_digits_uint (Pos.to_uint p)) as Hd.
  pose proof (NilEmpty.usu (Pos.to_uint p)) as Hu.
  assert (Hz : Z.of_uint (Pos.to_uint p) = Z.pos p).
  { unfold Z.of_uint. now rewrite Unsigned.of_to. }
  assert (Hl : (640 <? String.length (NilEmpty.string_of_uint (Pos.to_uint p)))%nat
               = false) by (apply Nat.ltb_ge; exact Hlen).
  assert (Hsp : Ascii.eqb c " " = false
                /\ Ascii.eqb c "-" = false /\ Ascii.eqb c "+" = false).
  { destruct c as [[] [] [] [] [] [] [] []]; try discriminate;
      repeat split. }
  destruct Hsp as (Hs & Hm & Hpl).
  rewrite E in *. clear E.
  unfold py_int. destruct neg; norm_str.
  - assert (Hp' : all_chars printable (String "-" (String c r)) = true).
    { change (printable "-" && all_chars printable (String c r) = true).
      now rewrite Hp. }
    rewrite Hp'. cbn [negb strip_spaces].
    change (Ascii.eqb "-" " ") with false. cbn iota.
    change (Ascii.eqb "-" "-") with true. cbn iota.
    cbn [starts_with_digit]. rewrite Hc, Hd. cbn [strip_spaces].
    rewrite Hu, Hl, Hz. reflexivity.
  - rewrite Hp. cbn [negb strip_spaces]. rewrite Hs, Hm, Hpl.
    cbn [starts_with_digit]. rewrite Hc, Hd. cbn [strip_spaces].
    rewrite Hu, Hl, Hz. reflexivity.
Qed.

(** X25: an id as [list_tasks] and the reports print it is read back by
    the prompts as that id: [int(str(n))] is [n], for every number of at
    most 640 characters. *)
Theorem py_int_str_of_int z :
  (String.length (str_of_int z) <= 640)%nat ->
  py_int (str_of_int z) = IntOk z.
Proof.
  destruct z as [|p|p]; unfold str_of_int;
    cbn [Z.to_int NilZero.string_of_int]; intros H.
  - reflexivity.
  - rewrite nilzero_string_of_uint in *. exact (py_int_uint false p H).
  - rewrite nilzero_string_of_uint in *. apply (py_int_uint true p).
    cbn [String.length] in H. lia.
Qed.

Lemma py_int_str_of_int_witness : py_int (str_of_int (-42)) = IntOk (-42).
Proof.
  apply (py_int_str_of_int (-42)). apply Nat.leb_le. reflexivity.
Defined.

End TypedNumbers.

Section FirstRun.

Variables (check_mark box : string) (clock : nat -> reading).

(** X13: started without a tasks file and left at once by option 7, the
    program creates the file, holding the empty list; nothing is printed
    about the missing file. *)
Theorem first_run_creates_file fs :
  fs !! "tasks.json" = None ->
  main check_mark box clock fs ["7"]
  = Ret tt
      (mkSession
         (print "Goodbye!"
            (save_tasks (menu_shown (mkWorld [] "tasks.json" [] fs)))) [] 0)
  /\ files (save_tasks (menu_shown (mkWorld [] "tasks.json" [] fs)))
       !! "tasks.json" = Some "[]"%string.
Proof.
  intros H. split.
  - unfold main, TodoList.
    rewrite (load_tasks_no_file (mkWorld [] "tasks.json" [] fs) H).
    reflexivity.
  - cbn. now rewrite lookup_insert_eq.
Qed.

End FirstRun.

Lemma first_run_creates_file_witness :
  files (save_tasks (menu_shown (mkWorld [] "tasks.json" []
                                   {[ "notes.txt" := "x" ]})))
    !! "tasks.json" = Some "[]"%string.
Proof.
  exact (proj2 (first_run_creates_file "V" "O" noon {[ "notes.txt" := "x" ]}
                  eq_refl)).
Defined.
